(** * app.js: loops, lists and small functions over [prompt] and [console.log]

    A shallow embedding of [app.js].  The script talks to its environment
    through two host functions only: [prompt], which returns a string or
    [null], and [console.log], which receives a list of values.  Each
    function of the script is an interaction tree over these two events; a
    fuel-indexed runner feeds the answers of an input source to the tree and
    records every prompt label and every logged line in a trace.

    Conventions.
    - A JavaScript string is the [string] of the UTF-8 bytes of its text.
    - A JavaScript number is a binary64 value, [spec_float] at precision 53
      and maximal exponent 1024, with the operations of [SpecFloat].
    - The loop counters [tentativas] and [i] only take the values 0..5, where
      binary64 arithmetic is exact; they are integers of [Z]. *)

From Stdlib Require Import ZArith List String Ascii Bool Lia PeanoNat DecimalString.
From Stdlib Require Import Floats.SpecFloat.
From ITree Require Import ITree.
Import ListNotations.
Import ITreeNotations.

Local Open Scope string_scope.
Local Open Scope list_scope.
Local Open Scope itree_scope.

(* ===================================================================== *)
(** ** Numbers *)
(* ===================================================================== *)

Module Number.

Definition prec : Z := 53.
Definition emax : Z := 1024.

(** The Number type of the host. *)
Definition number : Type := spec_float.

Definition NaN : number := S754_nan.
Definition pos_zero : number := S754_zero false.
Definition neg_zero : number := S754_zero true.
Definition pos_infinity : number := S754_infinity false.

(** The Number value of a mathematical integer (round to nearest, ties to
    even); this is how an integer literal such as [3] denotes. *)
Definition of_Z (z : Z) : number := binary_normalize prec emax z 0 false.

(** The Number value of [z * 2^e]. *)
Definition of_dyadic (z e : Z) : number := binary_normalize prec emax z e false.

Definition mul (x y : number) : number := SFmul prec emax x y.
Definition sub (x y : number) : number := SFsub prec emax x y.

(** [x === y], [x < y] and [x <= y] on numbers: every comparison with NaN
    is false and the two zeros are equal. *)
Definition equal (x y : number) : bool := SFeqb x y.
Definition lessThan (x y : number) : bool := SFltb x y.
Definition lessEq (x y : number) : bool := SFleb x y.

(** The values the format really has. *)
Definition valid (x : number) : bool := valid_binary prec emax x.

(** [base ** 2], after Number::exponentiate with exponent 2: NaN stays NaN,
    both infinities and both zeros lose their sign, and a finite non-zero
    base [m * 2^e] gives the Number value of the exact square
    [(m * m) * 2^(e + e)], which is what the engines compute (they multiply
    the base by itself). *)
Definition exponentiate_2 (base : number) : number :=
  match base with
  | S754_nan => S754_nan
  | S754_infinity _ => S754_infinity false
  | S754_zero _ => S754_zero false
  | S754_finite _ m e =>
      binary_round_aux prec emax false (Zpos (m * m)) (e + e) loc_Exact
  end.

(** The first step of [binary_round]: the mantissa is brought to the
    exponent the format wants, by a shift to the left or to the right. *)
Definition align_round (m : positive) (e : Z) : shr_record * Z :=
  let '(mz, ez) := shl_align m e (fexp prec emax (Zpos (digits2_pos m) + e)) in
  shr_fexp prec emax (Zpos mz) ez loc_Exact.

End Number.

Import Number.

(* ===================================================================== *)
(** ** Strings and the parsers of the host *)
(* ===================================================================== *)

Module Text.

Definition LF : string := String (ascii_of_nat 10) EmptyString.

Definition code (c : ascii) : Z := Z.of_N (N_of_ascii c).

(** One white space or line terminator code point at the head of the
    string, in UTF-8: the ASCII ones, U+00A0, U+1680, U+2000..U+200A,
    U+2028, U+2029, U+202F, U+205F, U+3000 and U+FEFF. *)
Definition strip_space (s : string) : option string :=
  match s with
  | String c1 r1 =>
      let b1 := code c1 in
      if ((9 <=? b1) && (b1 <=? 13) || (b1 =? 32))%Z then Some r1
      else
        match r1 with
        | String c2 r2 =>
            let b2 := code c2 in
            if ((b1 =? 194) && (b2 =? 160))%Z then Some r2
            else
              match r2 with
              | String c3 r3 =>
                  let b3 := code c3 in
                  if ((b1 =? 225) && (b2 =? 154) && (b3 =? 128)
                      || (b1 =? 226) && (b2 =? 128)
                         && ((128 <=? b3) && (b3 <=? 138)
                             || (b3 =? 168) || (b3 =? 169) || (b3 =? 175))
                      || (b1 =? 226) && (b2 =? 129) && (b3 =? 159)
                      || (b1 =? 227) && (b2 =? 128) && (b3 =? 128)
                      || (b1 =? 239) && (b2 =? 187) && (b3 =? 191))%Z
                  then Some r3 else None
              | EmptyString => None
              end
        | EmptyString => None
        end
  | EmptyString => None
  end.

(** TrimString(s, start).  The fuel is the length of the string, which
    each stripped code point shortens. *)
Fixpoint trim_start_aux (fuel : nat) (s : string) : string :=
  match fuel with
  | O => s
  | S fuel' =>
      match strip_space s with
      | Some r => trim_start_aux fuel' r
      | None => s
      end
  end.

Definition trim_start (s : string) : string := trim_start_aux (length s) s.

(** The value of a digit in radix [R], if the character is one. *)
Definition digit_value (R : Z) (c : ascii) : option Z :=
  let b := code c in
  let v := if ((48 <=? b) && (b <=? 57))%Z then Some (b - 48)%Z
           else if ((97 <=? b) && (b <=? 122))%Z then Some (b - 87)%Z
           else if ((65 <=? b) && (b <=? 90))%Z then Some (b - 55)%Z
           else None in
  match v with
  | Some d => if (d <? R)%Z then Some d else None
  | None => None
  end.

(** The longest prefix of radix-[R] digits, as digit values, and the rest
    of the string. *)
Fixpoint take_digits (R : Z) (s : string) : list Z * string :=
  match s with
  | String c r =>
      match digit_value R c with
      | Some d => let '(ds, rest) := take_digits R r in (d :: ds, rest)
      | None => ([], s)
      end
  | EmptyString => ([], s)
  end.

(** The mathematical integer a digit sequence denotes in radix [R]. *)
Definition digits_value (R : Z) (ds : list Z) : Z :=
  fold_left (fun acc d => acc * R + d)%Z ds 0%Z.

(** ToString of what [prompt] returns: a string, or [null]. *)
Definition ToString (a : option string) : string :=
  match a with
  | Some s => s
  | None => "null"
  end.

(** [parseInt(string)] with no radix argument: leading white space is
    dropped, then an optional sign, then an optional [0x] or [0X] that
    selects radix 16; the longest run of digits is the integer, and an
    empty run gives NaN.  What follows the digits is ignored.  The integer
    is converted exactly, with every digit significant. *)
Definition parseInt_string (inputString : string) : number :=
  let S0 := trim_start inputString in
  let '(negative, S1) :=
    match S0 with
    | String "-" r => (true, r)
    | String "+" r => (false, r)
    | _ => (false, S0)
    end in
  let '(R, S2) :=
    match S1 with
    | String "0" (String "x" r) => (16%Z, r)
    | String "0" (String "X" r) => (16%Z, r)
    | _ => (10%Z, S1)
    end in
  let '(Zs, _) := take_digits R S2 in
  match Zs with
  | [] => NaN
  | _ =>
      let mathInt := digits_value R Zs in
      if (mathInt =? 0)%Z then (if negative then neg_zero else pos_zero)
      else of_Z (if negative then - mathInt else mathInt)
  end.

Definition parseInt (a : option string) : number := parseInt_string (ToString a).

(** The Number value of the decimal [M * 10^E] with [M > 0]: the nearest
    binary64 value, ties to even.  A negative exponent is an exact
    division of integers whose quotient carries the position of the
    remainder into the rounding. *)
Definition decimal_to_number (negative : bool) (M : positive) (E : Z) : number :=
  match E with
  | Zneg k =>
      let '(q, e, l) :=
        SFdiv_core_binary prec emax (Zpos M) 0 (Zpos (10 ^ k)) 0 in
      binary_round_aux prec emax negative q e l
  | _ => binary_round prec emax negative (M * Z.to_pos (10 ^ E)) 0
  end.

(** The exponent part [e], [e+] or [e-] followed by digits; without
    digits there is no exponent part and the exponent is 0. *)
Definition exponent_part (s : string) : Z :=
  match s with
  | String c r =>
      if (Ascii.eqb c "e" || Ascii.eqb c "E")%bool then
        let '(neg, r') :=
          match r with
          | String "-" r' => (true, r')
          | String "+" r' => (false, r')
          | _ => (false, r)
          end in
        match fst (take_digits 10 r') with
        | [] => 0%Z
        | ds => if neg then (- digits_value 10 ds)%Z else digits_value 10 ds
        end
      else 0%Z
  | EmptyString => 0%Z
  end.

(** [parseFloat(string)]: leading white space is dropped and the longest
    prefix that is a StrDecimalLiteral is the number: an optional sign,
    then [Infinity], or digits with an optional fraction and exponent, or
    a fraction that starts with the dot.  No such prefix gives NaN. *)
Definition parseFloat_string (inputString : string) : number :=
  let trimmed := trim_start inputString in
  let '(negative, t1) :=
    match trimmed with
    | String "-" r => (true, r)
    | String "+" r => (false, r)
    | _ => (false, trimmed)
    end in
  if prefix "Infinity" t1 then S754_infinity negative
  else
    let '(ints, r1) := take_digits 10 t1 in
    let '(fracs, r2) :=
      match r1 with
      | String "." r => take_digits 10 r
      | _ => ([], r1)
      end in
    match ints ++ fracs with
    | [] => NaN
    | ds =>
        match digits_value 10 ds with
        | Zpos M =>
            decimal_to_number negative M
              (exponent_part r2 - Z.of_nat (List.length fracs))
        | _ => S754_zero negative
        end
    end.

Definition parseFloat (a : option string) : number := parseFloat_string (ToString a).

(** ToString of an integer-valued number, as a template literal does it. *)
Definition Z_to_string (z : Z) : string := NilZero.string_of_int (Z.to_int z).

End Text.

Import Text.

(* ===================================================================== *)
(** ** Values, the two host functions and the runner *)
(* ===================================================================== *)

(** The values the script handles. *)
Inductive value : Type :=
| VUndefined
| VNull
| VBool (b : bool)
| VNum (n : number)
| VStr (s : string).

(** What [prompt] returns, as a value: the text typed, or [null] when the
    dialog is dismissed. *)
Definition of_answer (a : option string) : value :=
  match a with
  | Some s => VStr s
  | None => VNull
  end.

(** [x === y]: values of different types are never equal; no conversion. *)
Definition strict_equal (x y : value) : bool :=
  match x, y with
  | VUndefined, VUndefined => true
  | VNull, VNull => true
  | VBool a, VBool b => Bool.eqb a b
  | VNum a, VNum b => Number.equal a b
  | VStr a, VStr b => String.eqb a b
  | _, _ => false
  end.

Variant ioE : Type -> Type :=
| Prompt (label : string) : ioE (option string)
| ConsoleLog (args : list value) : ioE unit.

Definition prompt (label : string) : itree ioE (option string) :=
  ITree.trigger (Prompt label).

Definition console_log (args : list value) : itree ioE unit :=
  ITree.trigger (ConsoleLog args).

(** [array.forEach(f)] for a callback that uses the element only. *)
Fixpoint forEach {A : Type} (array : list A) (f : A -> itree ioE unit) : itree ioE unit :=
  match array with
  | [] => Ret tt
  | x :: rest => f x ;; forEach rest f
  end.

(** What an observer of the page sees, in order. *)
Variant event : Type :=
| Prompted (label : string)
| Logged (args : list value).

(** The input source is the sequence of answers the user will give, one per
    dialog; [consumed] counts the dialogs answered so far. *)
Definition source : Type := nat -> option string.

Record world : Type := World { consumed : nat; trace : list event }.

Definition start : world := World 0 [].

Variant outcome (R : Type) : Type :=
| Done (r : R) (w : world)
| OutOfFuel (w : world).
Arguments Done {R} r w.
Arguments OutOfFuel {R} w.

Definition handle (src : source) {X : Type} (e : ioE X) (w : world) : X * world :=
  match e in ioE X return X * world with
  | Prompt label =>
      (src (consumed w), World (S (consumed w)) (trace w ++ [Prompted label]))
  | ConsoleLog args =>
      (tt, World (consumed w) (trace w ++ [Logged args]))
  end.

(** Runs a tree for at most [fuel] steps against the source. *)
Fixpoint run {R : Type} (fuel : nat) (src : source) (t : itree ioE R) (w : world) : outcome R :=
  match fuel with
  | O => OutOfFuel w
  | S fuel' =>
      match observe t with
      | RetF r => Done r w
      | TauF t' => run fuel' src t' w
      | VisF e k => let '(x, w') := handle src e w in run fuel' src (k x) w'
      end
  end.

(** With enough fuel the tree returns [r] and leaves the world [w']. *)
Definition returns {R : Type} (src : source) (t : itree ioE R) (w : world)
  (r : R) (w' : world) : Prop :=
  exists fuel, run fuel src t w = Done r w'.

(** The tree returns on this source, from this world. *)
Definition terminates {R : Type} (src : source) (t : itree ioE R) (w : world) : Prop :=
  exists r w', returns src t w r w'.

(** The tree never returns on this source, however long it runs. *)
Definition diverges {R : Type} (src : source) (t : itree ioE R) (w : world) : Prop :=
  forall fuel, exists w', run fuel src t w = OutOfFuel w'.

(** The lines logged, in order. *)
Definition logged (tr : list event) : list (list value) :=
  flat_map (fun ev => match ev with Logged args => [args] | Prompted _ => [] end) tr.

(** A source that gives the answers of [answers] first and those of [rest]
    afterwards. *)
Definition feed (answers : list (option string)) (rest : source) : source :=
  fun i => match nth_error answers i with
           | Some a => a
           | None => rest (i - List.length answers)%nat
           end.

(* ===================================================================== *)
(** ** The script *)
(* ===================================================================== *)

(** 1. [loopWhile]: asks for a number until 3 is typed. *)
Definition loopWhile_body (numero : number) : itree ioE (number + unit) :=
  if negb (Number.equal numero (of_Z 3)) then
    console_log [VStr "Você digitou:"; VNum numero] ;;
    a <- prompt "Digite outro número:" ;;
    Ret (inl (parseInt a))
  else Ret (inr tt).

Definition loopWhile : itree ioE unit :=
  a <- prompt "Digite um número:" ;;
  let numero := parseInt a in
  ITree.iter loopWhile_body numero ;;
  console_log [VStr "Número 3 digitado. Encerrando o loop."].

(** 2. [validaSenha]: asks for the password, three attempts at most. *)
Record senha_state : Type :=
  SenhaState { tentativas : Z; acesso : bool; tentativa : value }.

Definition senhaCorreta : string := "123456".

(** One turn of the [do ... while]: [inr] leaves the loop, by [break] or
    because the condition [tentativas < 3] fails. *)
Definition validaSenha_body (st : senha_state) : itree ioE (senha_state + senha_state) :=
  a <- prompt "Digite a senha de acesso:" ;;
  let tentativa := of_answer a in
  let tentativas := (tentativas st + 1)%Z in
  if strict_equal tentativa (VStr senhaCorreta) then
    Ret (inr (SenhaState tentativas true tentativa))
  else if (tentativas <? 3)%Z then
    Ret (inl (SenhaState tentativas (acesso st) tentativa))
  else
    Ret (inr (SenhaState tentativas (acesso st) tentativa)).

Definition validaSenha_loop : itree ioE senha_state :=
  ITree.iter validaSenha_body (SenhaState 0 false VUndefined).

Definition validaSenha : itree ioE unit :=
  st <- validaSenha_loop ;;
  if acesso st then console_log [VStr "Acesso concedido!"]
  else console_log [VStr "Senha bloqueada!"].

(** 3. [exibirListaFixa]: shows a list of four numbers. *)
Definition lista : list number := [of_Z 10; of_Z 20; of_Z 30; of_Z 40].

Definition exibirListaFixa : itree ioE unit :=
  console_log [VStr "Lista fixa de 4 números:"] ;;
  forEach lista (fun numero => console_log [VNum numero]).

(** 4. [solicitarCincoNumeros]: asks for five numbers and shows them. *)
Definition solicitarCincoNumeros_body (st : Z * list number)
  : itree ioE (Z * list number + list number) :=
  let '(i, numeros) := st in
  if (i <? 5)%Z then
    a <- prompt ("Digite o " ++ Z_to_string (i + 1) ++ "º número:")%string ;;
    let num := parseFloat a in
    Ret (inl ((i + 1)%Z, numeros ++ [num]))
  else Ret (inr numeros).

(** The [for] loop; it returns the array [numeros] it has filled. *)
Definition solicitarCincoNumeros_for : itree ioE (list number) :=
  ITree.iter solicitarCincoNumeros_body (0%Z, []).

Definition solicitarCincoNumeros : itree ioE unit :=
  numeros <- solicitarCincoNumeros_for ;;
  console_log [VStr "Números digitados:"] ;;
  forEach numeros (fun numero => console_log [VNum numero]).

(** 5. to 8. The functions. *)
Definition mensagemPersonalizada : string :=
  "Bem-vindo ao programa de Ciência de Dados!".

Definition saudacao (nome : string) : string :=
  ("Olá, " ++ nome ++ ", que bom ter você no programa Trilhas.")%string.

Definition calcularQuadrado (numero : number) : number :=
  exponentiate_2 numero.

Definition Subtracao (a b : number) : number :=
  Number.sub a b.

(** The statements at the top level of the script. *)
Definition script : itree ioE unit :=
  console_log [VStr "=== LOOP WHILE ==="] ;;
  loopWhile ;;
  console_log [VStr (LF ++ "=== VALIDAÇÃO DE SENHA (do...while) ===")%string] ;;
  validaSenha ;;
  console_log [VStr (LF ++ "=== LISTA FIXA ===")%string] ;;
  exibirListaFixa ;;
  console_log [VStr (LF ++ "=== SOLICITAÇÃO DE 5 NÚMEROS ===")%string] ;;
  solicitarCincoNumeros ;;
  console_log [VStr (LF ++ "=== FUNÇÕES ===")%string] ;;
  console_log [VStr mensagemPersonalizada] ;;
  console_log [VStr (saudacao "Ana")] ;;
  console_log [VStr "Quadrado de 5:"; VNum (calcularQuadrado (of_Z 5))] ;;
  console_log [VStr "Subtração de 10 e 3:"; VNum (Subtracao (of_Z 10) (of_Z 3))].

(* ===================================================================== *)
(** ** What each function is expected to leave in the trace *)
(* ===================================================================== *)

(** The answer parses to the number that ends [loopWhile]. *)
Definition is_three (a : option string) : bool :=
  Number.equal (parseInt a) (of_Z 3).

(** The line [loopWhile] logs for an answer that does not end the loop. *)
Definition digitou (a : option string) : list value :=
  [VStr "Você digitou:"; VNum (parseInt a)].

Definition encerrando : list value :=
  [VStr "Número 3 digitado. Encerrando o loop."].

(** The turns of the loop for the answers at positions [p], ..., [p + k - 1]:
    each is logged and followed by a new dialog. *)
Fixpoint loopWhile_echo (src : source) (p k : nat) : list event :=
  match k with
  | O => []
  | S k' =>
      Logged (digitou (src p)) :: Prompted "Digite outro número:"
        :: loopWhile_echo src (S p) k'
  end.

(** The whole of [loopWhile] when the answer at [p + k] is the first that
    parses to 3. *)
Definition loopWhile_trace (src : source) (p k : nat) : list event :=
  Prompted "Digite um número:" :: loopWhile_echo src p k ++ [Logged encerrando].

(** The dialog of [validaSenha]. *)
Definition dialog : event := Prompted "Digite a senha de acesso:".

(** The answer is the password. *)
Definition is_secret (a : option string) : bool :=
  strict_equal (of_answer a) (VStr senhaCorreta).

(** The number of dialogs [validaSenha] opens when the answers start at
    position [p], and whether one of them is the password. *)
Definition attempts_used (src : source) (p : nat) : nat :=
  if is_secret (src p) then 1
  else if is_secret (src (S p)) then 2
  else 3.

Definition granted (src : source) (p : nat) : bool :=
  is_secret (src p) || is_secret (src (S p)) || is_secret (src (S (S p))).

Definition validaSenha_trace (src : source) (p : nat) : list event :=
  repeat dialog (attempts_used src p)
    ++ [Logged [VStr (if granted src p then "Acesso concedido!" else "Senha bloqueada!")]].

Definition exibirListaFixa_trace : list event :=
  [Logged [VStr "Lista fixa de 4 números:"];
   Logged [VNum (of_Z 10)]; Logged [VNum (of_Z 20)];
   Logged [VNum (of_Z 30)]; Logged [VNum (of_Z 40)]].

Definition cinco_prompts : list event :=
  [Prompted "Digite o 1º número:"; Prompted "Digite o 2º número:";
   Prompted "Digite o 3º número:"; Prompted "Digite o 4º número:";
   Prompted "Digite o 5º número:"].

(** The five answers from position [p] on. *)
Definition cinco_answers (src : source) (p : nat) : list (option string) :=
  map (fun i => src (i + p)%nat) (seq 0 5).

Definition solicitarCincoNumeros_trace (src : source) (p : nat) : list event :=
  cinco_prompts ++ Logged [VStr "Números digitados:"]
    :: map (fun a => Logged [VNum (parseFloat a)]) (cinco_answers src p).

(** The line starts with this label. *)
Definition has_label (label : string) (line : list value) : bool :=
  match line with
  | VStr s :: _ => String.eqb s label
  | _ => false
  end.

(** The turns of [loopWhile] for a list of answers none of which ends it. *)
Definition echo_of (answers : list (option string)) : list event :=
  flat_map (fun a => [Logged (digitou a); Prompted "Digite outro número:"]) answers.

(** A user who never types a number. *)
Definition never_three : source := fun _ => Some "abc".

(** A session: two answers to [loopWhile], two to [validaSenha] and five
    numbers. *)
Definition session : source :=
  feed [Some "7"; Some "3"; Some "senha"; Some "123456";
        Some "1.5"; Some "2"; Some "-3"; Some "0"; Some "100"] (fun _ => None).

(** The world a run has reached, whether it has returned or not. *)
Definition outcome_world {R : Type} (o : outcome R) : world :=
  match o with
  | Done _ w => w
  | OutOfFuel w => w
  end.

(** The events [loopWhile] can add to a trace: its two dialogs, its closing
    line, and a digitou line for a number that is not 3. *)
Definition loop_event (ev : event) : Prop :=
  match ev with
  | Prompted label => label = "Digite um número:" \/ label = "Digite outro número:"
  | Logged args =>
      args = encerrando \/
      exists v, args = [VStr "Você digitou:"; VNum v] /\ Number.equal v (of_Z 3) = false
  end.

(** A source that follows [src] for the first [n] answers and then types 3. *)
Definition then_three (src : source) (n : nat) : source :=
  fun i => if (i <? n)%nat then src i else Some "3".

(** The state in which the loop of [validaSenha] ends when the answers
    start at position [p]. *)
Definition validaSenha_final (src : source) (p : nat) : senha_state :=
  if is_secret (src p) then SenhaState 1 true (of_answer (src p))
  else if is_secret (src (S p)) then SenhaState 2 true (of_answer (src (S p)))
  else SenhaState 3 (is_secret (src (S (S p)))) (of_answer (src (S (S p)))).

(* ===================================================================== *)
(** ** The runner *)
(* ===================================================================== *)

Section Runner.

Variable src : source.

Lemma observe_bind_cases {A R : Type} (t : itree ioE A) (k : A -> itree ioE R) :
  observe (ITree.bind t k) =
  match observe t with
  | RetF r => observe (k r)
  | TauF t' => TauF (ITree.bind t' k)
  | VisF e h => VisF e (fun x => ITree.bind (h x) k)
  end.
Proof.
  change (observe (ITree.bind t k))
    with (observe (match observe t with
                   | RetF r => k r
                   | TauF t' => Tau (ITree.bind t' k)
                   | VisF e h => Vis e (fun x => ITree.bind (h x) k)
                   end)).
  destruct (observe t); reflexivity.
Qed.

Lemma observe_iter {I R : Type} (body : I -> itree ioE (I + R)) (i : I) :
  observe (ITree.iter body i) =
  observe (ITree.bind (body i)
             (fun lr => match lr with
                        | inl l => Tau (ITree.iter body l)
                        | inr r => Ret r
                        end)).
Proof. reflexivity. Qed.

(** The runner only looks at the tree through [observe]. *)
Lemma run_observe {R : Type} (t u : itree ioE R) :
  observe t = observe u -> forall fuel w, run fuel src t w = run fuel src u w.
Proof.
  intros E [|fuel] w; [reflexivity|]. cbn [run]. now rewrite E.
Qed.

(** More fuel does not change a result. *)
Lemma run_mono {R : Type} (n : nat) :
  forall (t : itree ioE R) w r w',
    run n src t w = Done r w' ->
    forall m, n <= m -> run m src t w = Done r w'.
Proof.
  induction n as [|n IH]; intros t w r w' H m Hm; [discriminate|].
  destruct m as [|m]; [lia|]. cbn [run] in *.
  destruct (observe t) as [r0|t'|X e k]; auto.
  - apply (IH _ _ _ _ H). lia.
  - destruct (handle src e w) as [x w1]. apply (IH _ _ _ _ H). lia.
Qed.

Lemma run_bind {A R : Type} (k : A -> itree ioE R) (n m : nat) :
  forall (t : itree ioE A) w s w1 r w2,
    run n src t w = Done s w1 ->
    run m src (k s) w1 = Done r w2 ->
    run (n + m) src (ITree.bind t k) w = Done r w2.
Proof.
  induction n as [|n IH]; intros t w s w1 r w2 Ht Hk; [discriminate|].
  cbn [run Nat.add] in *. rewrite observe_bind_cases.
  destruct (observe t) as [s0|t'|X e h].
  - inversion Ht; subst.
    change (run (S (n + m)) src (k s) w1 = Done r w2).
    apply (run_mono _ _ _ _ _ Hk). lia.
  - eapply IH; eauto.
  - destruct (handle src e w) as [x w0]. eapply IH; eauto.
Qed.

Lemma run_bind_inv {A R : Type} (k : A -> itree ioE R) (m : nat) :
  forall (t : itree ioE A) w r w2,
    run m src (ITree.bind t k) w = Done r w2 ->
    exists s w1, run m src t w = Done s w1 /\ run m src (k s) w1 = Done r w2.
Proof.
  induction m as [|m IH]; intros t w r w2 H; [discriminate|].
  cbn [run] in H. rewrite observe_bind_cases in H.
  destruct (observe t) as [s0|t'|X e h] eqn:E.
  - exists s0, w. split; [cbn [run]; now rewrite E | exact H].
  - destruct (IH _ _ _ _ H) as (s & w1 & Ht & Hk). exists s, w1. split.
    + cbn [run]. now rewrite E.
    + apply (run_mono _ _ _ _ _ Hk). lia.
  - destruct (handle src e w) as [x w0] eqn:Eh.
    destruct (IH _ _ _ _ H) as (s & w1 & Ht & Hk). exists s, w1. split.
    + cbn [run]. now rewrite E, Eh.
    + apply (run_mono _ _ _ _ _ Hk). lia.
Qed.

(** [returns] is a function of the tree and the world. *)
Lemma returns_det {R : Type} (t : itree ioE R) w r1 w1 r2 w2 :
  returns src t w r1 w1 -> returns src t w r2 w2 -> r1 = r2 /\ w1 = w2.
Proof.
  intros [n Hn] [m Hm].
  apply (run_mono _ _ _ _ _) with (m := Nat.max n m) in Hn; [|lia].
  apply (run_mono _ _ _ _ _) with (m := Nat.max n m) in Hm; [|lia].
  rewrite Hn in Hm. now inversion Hm.
Qed.

Lemma returns_ret {R : Type} (r : R) w : returns src (Ret r) w r w.
Proof. now exists 1. Qed.

Lemma returns_bind {A R : Type} (t : itree ioE A) (k : A -> itree ioE R) w s w1 r w2 :
  returns src t w s w1 ->
  returns src (k s) w1 r w2 ->
  returns src (ITree.bind t k) w r w2.
Proof.
  intros [n Hn] [m Hm]. exists (n + m). eapply run_bind; eauto.
Qed.

Lemma returns_bind_inv {A R : Type} (t : itree ioE A) (k : A -> itree ioE R) w r w2 :
  returns src (ITree.bind t k) w r w2 ->
  exists s w1, returns src t w s w1 /\ returns src (k s) w1 r w2.
Proof.
  intros [m Hm]. destruct (run_bind_inv _ _ _ _ _ _ Hm) as (s & w1 & Ht & Hk).
  exists s, w1. split; eexists; eauto.
Qed.

Lemma returns_prompt (label : string) w :
  returns src (prompt label) w (src (consumed w))
    (World (S (consumed w)) (trace w ++ [Prompted label])).
Proof. now exists 2. Qed.

Lemma returns_console_log (args : list value) w :
  returns src (console_log args) w tt
    (World (consumed w) (trace w ++ [Logged args])).
Proof. now exists 2. Qed.

(** One turn of a loop that asks for another turn. *)
Lemma returns_iter_again {I R : Type} (body : I -> itree ioE (I + R)) i w i' w1 r w2 :
  returns src (body i) w (inl i') w1 ->
  returns src (ITree.iter body i') w1 r w2 ->
  returns src (ITree.iter body i) w r w2.
Proof.
  intros [n Hn] [m Hm]. exists (n + S m).
  rewrite (run_observe _ _ (observe_iter body i)).
  eapply run_bind; eauto.
Qed.

(** The last turn of a loop. *)
Lemma returns_iter_stop {I R : Type} (body : I -> itree ioE (I + R)) i w r w1 :
  returns src (body i) w (inr r) w1 ->
  returns src (ITree.iter body i) w r w1.
Proof.
  intros [n Hn]. exists (n + 1).
  rewrite (run_observe _ _ (observe_iter body i)).
  eapply run_bind; eauto.
Qed.

(** A loop that has returned within [m] steps has run its first turn, and
    either that turn was the last or the rest of the loop returned within
    fewer steps. *)
Lemma run_iter_inv {I R : Type} (body : I -> itree ioE (I + R)) (m : nat) i w r w2 :
  run m src (ITree.iter body i) w = Done r w2 ->
  exists lr w1,
    run m src (body i) w = Done lr w1 /\
    match lr with
    | inl i' => exists m', m = S m' /\ run m' src (ITree.iter body i') w1 = Done r w2
    | inr r' => r' = r /\ w1 = w2
    end.
Proof.
  intros H. rewrite (run_observe _ _ (observe_iter body i)) in H.
  destruct (run_bind_inv _ _ _ _ _ _ H) as ([i'|r'] & w1 & Hb & Hk).
  - exists (inl i'), w1. split; [exact Hb|].
    destruct m as [|m']; [discriminate|]. now exists m'.
  - exists (inr r'), w1. split; [exact Hb|].
    destruct m as [|m']; [discriminate|]. now inversion Hk.
Qed.

(** A run either returns or is out of fuel; so a tree diverges exactly
    when it does not return. *)
Lemma diverges_iff {R : Type} (t : itree ioE R) w :
  diverges src t w <-> ~ terminates src t w.
Proof.
  split.
  - intros D (r & w' & n & Hn). destruct (D n) as [w1 H1]. congruence.
  - intros N n. destruct (run n src t w) as [r w'|w'] eqn:E.
    + exfalso. apply N. now exists r, w', n.
    + now exists w'.
Qed.

End Runner.

(* ===================================================================== *)
(** ** The parsers *)
(* ===================================================================== *)

Lemma strip_space_shorter (s r : string) :
  strip_space s = Some r -> String.length r < String.length s.
Proof.
  destruct s as [|c1 [|c2 [|c3 r3]]]; cbn; intros H;
    repeat match type of H with
      | (if ?b then _ else _) = _ => destruct b
      end; inversion H; subst; cbn; lia.
Qed.

Lemma trim_start_aux_stripped (fuel : nat) :
  forall s, String.length s <= fuel -> strip_space (trim_start_aux fuel s) = None.
Proof.
  induction fuel as [|fuel IH]; intros s Hs; cbn [trim_start_aux].
  - destruct s; [reflexivity|cbn in Hs; lia].
  - destruct (strip_space s) as [r|] eqn:E; [|exact E].
    apply IH. apply strip_space_shorter in E. lia.
Qed.

(** The fuel of [trim_start] is enough: no white space is left in front. *)
Lemma trim_start_stripped (s : string) : strip_space (trim_start s) = None.
Proof. now apply trim_start_aux_stripped. Qed.

(** NaN is equal to no number, itself included. *)
Lemma equal_NaN (x : number) : Number.equal NaN x = false.
Proof. reflexivity. Qed.

Example parseInt_three :
  map parseInt [Some "3"; Some "3.9"; Some "3abc"; Some " +3"; Some "0x3"]
  = [of_Z 3; of_Z 3; of_Z 3; of_Z 3; of_Z 3].
Proof. reflexivity. Qed.

Example parseInt_not_three :
  map parseInt [Some "abc"; None; Some ""; Some "30"; Some "-3"; Some "2.9"]
  = [NaN; NaN; NaN; of_Z 30; of_Z (-3); of_Z 2].
Proof. reflexivity. Qed.

Example parseFloat_numbers :
  map parseFloat [Some "1.5"; Some "2"; Some "-3"; Some "0"; Some "100";
                  Some "1e3"; Some ".25"; Some "abc"; None]
  = [of_dyadic 3 (-1); of_Z 2; of_Z (-3); of_Z 0; of_Z 100;
     of_Z 1000; of_dyadic 1 (-2); NaN; NaN].
Proof. reflexivity. Qed.

(* ===================================================================== *)
(** ** 1. [loopWhile] *)
(* ===================================================================== *)

Section LoopWhile.

Variable src : source.

Lemma loopWhile_body_again numero w :
  Number.equal numero (of_Z 3) = false ->
  returns src (loopWhile_body numero) w
    (inl (parseInt (src (consumed w))))
    (World (S (consumed w))
       (trace w ++ [Logged [VStr "Você digitou:"; VNum numero];
                    Prompted "Digite outro número:"])).
Proof.
  intros H. exists 3. unfold loopWhile_body. rewrite H. cbn.
  now rewrite <- app_assoc.
Qed.

Lemma loopWhile_body_stop numero w :
  Number.equal numero (of_Z 3) = true ->
  returns src (loopWhile_body numero) w (inr tt) w.
Proof.
  intros H. exists 1. unfold loopWhile_body. now rewrite H.
Qed.

(** The loop, entered with the answer at [q] in [numero], when the answer
    at [q + k] is the first that parses to 3. *)
Lemma loopWhile_iter_returns (k : nat) :
  forall q w,
    consumed w = S q ->
    (forall j, j < k -> is_three (src (q + j)) = false) ->
    is_three (src (q + k)) = true ->
    returns src (ITree.iter loopWhile_body (parseInt (src q))) w tt
      (World (S (q + k)) (trace w ++ loopWhile_echo src q k)).
Proof.
  induction k as [|k IH]; intros q w Hw Hpre Hk.
  - apply returns_iter_stop. rewrite Nat.add_0_r in *. cbn [loopWhile_echo].
    rewrite app_nil_r, <- Hw. destruct w. now apply loopWhile_body_stop.
  - eapply returns_iter_again.
    + apply loopWhile_body_again.
      generalize (Hpre 0). rewrite Nat.add_0_r. intros G. apply G. lia.
    + rewrite Hw.
      replace (S (q + S k)) with (S (S q + k)) by lia.
      replace (trace w ++ loopWhile_echo src q (S k))
        with ((trace w ++ [Logged [VStr "Você digitou:"; VNum (parseInt (src q))];
                           Prompted "Digite outro número:"])
                ++ loopWhile_echo src (S q) k)
        by (now rewrite <- app_assoc).
      apply IH with (w := World (S (S q)) _); [reflexivity | |].
      * intros j Hj. replace (S q + j) with (q + S j) by lia. apply Hpre. lia.
      * now replace (S q + k) with (q + S k) by lia.
Qed.

Lemma loopWhile_returns (k : nat) w :
  (forall j, j < k -> is_three (src (consumed w + j)) = false) ->
  is_three (src (consumed w + k)) = true ->
  returns src loopWhile w tt
    (World (S (consumed w + k))
       (trace w ++ loopWhile_trace src (consumed w) k)).
Proof.
  intros Hpre Hk. unfold loopWhile.
  eapply returns_bind; [apply returns_prompt|].
  eapply returns_bind.
  - apply loopWhile_iter_returns with (k := k) (q := consumed w); auto.
  - cbn [trace consumed]. unfold loopWhile_trace.
    replace (trace w ++ Prompted "Digite um número:"
               :: loopWhile_echo src (consumed w) k ++ [Logged encerrando])
      with (((trace w ++ [Prompted "Digite um número:"])
               ++ loopWhile_echo src (consumed w) k) ++ [Logged encerrando])
      by (now rewrite <- !app_assoc).
    apply (returns_console_log src encerrando (World _ _)).
Qed.

(** Within [m] steps the loop cannot return unless one of the answers it
    may have read parses to 3. *)
Lemma loopWhile_iter_stuck (m : nat) :
  forall q w r w2,
    consumed w = S q ->
    (forall j, j <= m -> is_three (src (q + j)) = false) ->
    run m src (ITree.iter loopWhile_body (parseInt (src q))) w <> Done r w2.
Proof.
  induction m as [|m IH]; intros q w r w2 Hw Hpre H; [discriminate|].
  destruct (run_iter_inv src _ _ _ _ _ _ H) as (lr & w1 & Hb & Hrest).
  assert (H0 : Number.equal (parseInt (src q)) (of_Z 3) = false).
  { generalize (Hpre 0). rewrite Nat.add_0_r. intros G. apply G. lia. }
  destruct (returns_det src _ _ _ _ _ _
              (ex_intro _ _ Hb) (loopWhile_body_again _ w H0)) as [-> ->].
  destruct Hrest as (m' & Hm' & Hrun). inversion Hm'; subst m'.
  rewrite Hw in Hrun. revert Hrun. apply IH; [reflexivity|].
  intros j Hj. replace (S q + j) with (q + S j) by lia. apply Hpre. lia.
Qed.

Lemma loopWhile_stuck (m : nat) w r w2 :
  (forall j, j <= m -> is_three (src (consumed w + j)) = false) ->
  run m src loopWhile w <> Done r w2.
Proof.
  intros Hpre H. unfold loopWhile in H.
  destruct (run_bind_inv src _ _ _ _ _ _ H) as (a & w1 & Ha & Hk).
  destruct (returns_det src _ _ _ _ _ _
              (ex_intro _ _ Ha) (returns_prompt src _ w)) as [-> ->].
  destruct (run_bind_inv src _ _ _ _ _ _ Hk) as ([] & w3 & Hi & _).
  revert Hi. now apply loopWhile_iter_stuck.
Qed.

End LoopWhile.

(** *** Sources that start with a given list of answers *)

Lemma feed_prefix (pre tl : list (option string)) (rest : source) (j : nat) :
  j < List.length pre -> feed (pre ++ tl) rest j = nth j pre None.
Proof.
  intros Hj. unfold feed. rewrite nth_error_app1 by exact Hj.
  destruct (nth_error pre j) as [a|] eqn:E.
  - symmetry. now apply nth_error_nth.
  - apply nth_error_None in E. lia.
Qed.

Lemma feed_at_length (pre tl : list (option string)) (x : option string) (rest : source) :
  feed (pre ++ x :: tl) rest (List.length pre) = x.
Proof.
  unfold feed. rewrite nth_error_app2 by lia. now rewrite Nat.sub_diag.
Qed.

Lemma feed_Forall (P : option string -> Prop) pre tl rest :
  Forall P pre -> forall j, j < List.length pre -> P (feed (pre ++ tl) rest j).
Proof.
  intros HP j Hj. rewrite feed_prefix by exact Hj.
  apply Forall_forall with (1 := HP). now apply nth_In.
Qed.

Lemma loopWhile_echo_feed (pre : list (option string)) :
  forall pfx tl rest,
    loopWhile_echo (feed (pfx ++ pre ++ tl) rest) (List.length pfx) (List.length pre)
    = echo_of pre.
Proof.
  induction pre as [|a pre IH]; intros pfx tl rest; [reflexivity|].
  cbn [List.length loopWhile_echo echo_of flat_map app].
  change ((a :: pre) ++ tl) with (a :: pre ++ tl).
  rewrite feed_at_length. do 2 f_equal.
  specialize (IH (pfx ++ [a]) tl rest).
  rewrite <- app_assoc, length_app, Nat.add_1_r in IH. exact IH.
Qed.

Lemma logged_app (tr1 tr2 : list event) :
  logged (tr1 ++ tr2) = logged tr1 ++ logged tr2.
Proof. apply flat_map_app. Qed.

Lemma logged_echo_of (answers : list (option string)) :
  logged (echo_of answers) = map digitou answers.
Proof.
  induction answers as [|a l IH]; [reflexivity|]. cbn. now f_equal.
Qed.

Lemma digitou_lines_count (answers : list (option string)) :
  List.length (filter (has_label "Você digitou:") (map digitou answers ++ [encerrando]))
  = List.length answers.
Proof.
  induction answers as [|a l IH]; [reflexivity|]. cbn. now f_equal.
Qed.

(** *** Searching the answers *)

Lemma first_true (f : nat -> bool) (n : nat) :
  f n = true ->
  exists k, k <= n /\ f k = true /\ forall j, j < k -> f j = false.
Proof.
  revert f. induction n as [|n IH]; intros f Hn.
  - exists 0. repeat split; auto. intros j Hj. lia.
  - destruct (f 0) eqn:E0.
    + exists 0. repeat split; auto; [lia|]. intros j Hj. lia.
    + destruct (IH (fun i => f (S i)) Hn) as (k & Hk & Hfk & Hpre).
      exists (S k). repeat split; auto; [lia|].
      intros [|j] Hj; [exact E0|]. apply Hpre. lia.
Qed.

Lemma search_upto (f : nat -> bool) (m : nat) :
  (exists j, j <= m /\ f j = true) \/ (forall j, j <= m -> f j = false).
Proof.
  induction m as [|m [(j & Hj & Hf)|Hall]].
  - destruct (f 0) eqn:E0; [left; now exists 0|].
    right. intros j Hj. now replace j with 0 by lia.
  - left. exists j. split; [lia|exact Hf].
  - destruct (f (S m)) eqn:E; [left; now exists (S m)|].
    right. intros j Hj. destruct (Nat.eq_dec j (S m)) as [ -> | ]; [exact E|].
    apply Hall. lia.
Qed.

(** C2. When the last answer of an input sequence is the first one that
    parses to 3, [loopWhile] returns after reading exactly that sequence; it
    logs one digitou line per earlier answer, carrying the parsed value of
    that answer, in order, and then the closing message.  So the number of
    digitou lines is the number of inputs minus one, and when the first
    answer already parses to 3 the closing message is the only line. *)
Theorem loopWhile_digitou_lines
  (pre : list (option string)) (last : option string) (rest : source) :
  Forall (fun a => is_three a = false) pre ->
  is_three last = true ->
  exists w',
    returns (feed (pre ++ [last]) rest) loopWhile start tt w' /\
    consumed w' = List.length (pre ++ [last]) /\
    logged (trace w') = map digitou pre ++ [encerrando] /\
    List.length (filter (has_label "Você digitou:") (logged (trace w')))
      = List.length (pre ++ [last]) - 1 /\
    (pre = [] -> logged (trace w') = [encerrando]).
Proof.
  intros Hpre Hlast.
  pose (src := feed (pre ++ [last]) rest).
  assert (Hret : returns src loopWhile start tt
                   (World (S (List.length pre))
                      (Prompted "Digite um número:" :: echo_of pre ++ [Logged encerrando]))).
  { rewrite <- (loopWhile_echo_feed pre [] [last] rest).
    apply (loopWhile_returns src (List.length pre) start).
    - intros j Hj. now apply (feed_Forall _ pre [last] rest Hpre).
    - cbn [consumed start Nat.add]. unfold src. now rewrite feed_at_length. }
  eexists. split; [exact Hret|]. cbn [consumed trace].
  assert (Hlog : logged (Prompted "Digite um número:" :: echo_of pre ++ [Logged encerrando])
                 = map digitou pre ++ [encerrando]).
  { change (logged (echo_of pre ++ [Logged encerrando]) = map digitou pre ++ [encerrando]).
    now rewrite logged_app, logged_echo_of. }
  rewrite Hlog, digitou_lines_count, length_app, Nat.add_1_r.
  repeat split; [lia|]. now intros ->.
Qed.

Lemma loopWhile_digitou_lines_witness :
  exists w',
    returns (feed ([Some "7"; Some "abc"; None] ++ [Some "3"]) (fun _ => None))
      loopWhile start tt w' /\
    consumed w' = 4 /\
    logged (trace w')
      = map digitou [Some "7"; Some "abc"; None] ++ [encerrando] /\
    List.length (filter (has_label "Você digitou:") (logged (trace w'))) = 3 /\
    ([Some "7"; Some "abc"; None] = [] -> logged (trace w') = [encerrando]).
Proof.
  apply (loopWhile_digitou_lines [Some "7"; Some "abc"; None] (Some "3") (fun _ => None)).
  - repeat constructor.
  - reflexivity.
Defined.

(** C3. [loopWhile] returns exactly when some answer of the source parses
    to 3, and runs forever exactly when none does; in particular it runs
    forever on a source all of whose answers parse to NaN. *)
Theorem loopWhile_terminates_iff_three (src : source) :
  (terminates src loopWhile start <-> exists n, is_three (src n) = true) /\
  (diverges src loopWhile start <-> forall n, is_three (src n) = false) /\
  ((forall n, parseInt (src n) = NaN) -> diverges src loopWhile start).
Proof.
  assert (Hterm : terminates src loopWhile start <-> exists n, is_three (src n) = true).
  { split.
    - intros (r & w' & m & Hm).
      destruct (search_upto (fun j => is_three (src j)) m) as [(j & _ & Hj)|Hall].
      + now exists j.
      + exfalso. now apply (loopWhile_stuck src m start r w').
    - intros [n Hn].
      destruct (first_true (fun j => is_three (src j)) n Hn) as (k & _ & Hk & Hpre).
      exists tt. eexists. now apply (loopWhile_returns src k start). }
  assert (Hdiv : diverges src loopWhile start <-> forall n, is_three (src n) = false).
  { rewrite diverges_iff, Hterm. split.
    - intros N n. destruct (is_three (src n)) eqn:E; [|reflexivity].
      exfalso. apply N. now exists n.
    - intros Hall [n Hn]. rewrite Hall in Hn. discriminate. }
  repeat split; try apply Hterm; try apply Hdiv.
  intros Hnan. apply Hdiv. intros n. unfold is_three. now rewrite Hnan.
Qed.

Lemma loopWhile_terminates_iff_three_witness :
  diverges (fun _ => Some "abc") loopWhile start.
Proof.
  apply (loopWhile_terminates_iff_three (fun _ => Some "abc")).
  intros n. reflexivity.
Defined.

(** C9. The loop stops on the parsed value, not on the text typed: when an
    answer whose integer parse equals 3 follows answers that do not end the
    loop, the run is the one the literal text 3 gives in its place: the same
    final world, in which only the earlier answers have a digitou line. *)
Theorem loopWhile_stops_on_parsed_value
  (pre : list (option string)) (s : string) (rest : source) :
  Forall (fun a => is_three a = false) pre ->
  Number.equal (parseInt (Some s)) (of_Z 3) = true ->
  exists w',
    returns (feed (pre ++ [Some s]) rest) loopWhile start tt w' /\
    returns (feed (pre ++ [Some "3"]) rest) loopWhile start tt w' /\
    consumed w' = S (List.length pre) /\
    logged (trace w') = map digitou pre ++ [encerrando].
Proof.
  intros Hpre Hs.
  assert (Hret : forall last, is_three last = true ->
            returns (feed (pre ++ [last]) rest) loopWhile start tt
              (World (S (List.length pre))
                 (Prompted "Digite um número:" :: echo_of pre ++ [Logged encerrando]))).
  { intros last Hlast. rewrite <- (loopWhile_echo_feed pre [] [last] rest).
    apply (loopWhile_returns _ (List.length pre) start).
    - intros j Hj. now apply (feed_Forall _ pre [last] rest Hpre).
    - cbn [consumed start Nat.add]. now rewrite feed_at_length. }
  eexists. split; [apply (Hret (Some s) Hs)|].
  split; [apply (Hret (Some "3")); reflexivity|].
  split; [reflexivity|]. cbn [trace].
  change (logged (echo_of pre ++ [Logged encerrando]) = map digitou pre ++ [encerrando]).
  now rewrite logged_app, logged_echo_of.
Qed.

Lemma loopWhile_stops_on_parsed_value_witness :
  exists w',
    returns (feed ([Some "12"] ++ [Some "3.9"]) (fun _ => None)) loopWhile start tt w' /\
    returns (feed ([Some "12"] ++ [Some "3"]) (fun _ => None)) loopWhile start tt w' /\
    consumed w' = 2 /\
    logged (trace w') = map digitou [Some "12"] ++ [encerrando].
Proof.
  apply (loopWhile_stops_on_parsed_value [Some "12"] "3.9" (fun _ => None)).
  - repeat constructor.
  - reflexivity.
Defined.

(* ===================================================================== *)
(** ** 2. [validaSenha] *)
(* ===================================================================== *)

Lemma strict_equal_string (v : value) (s : string) :
  strict_equal v (VStr s) = true <-> v = VStr s.
Proof.
  destruct v; cbn; try (split; [discriminate|intros H; inversion H]).
  rewrite String.eqb_eq. split; [now intros ->|now inversion 1].
Qed.

Lemma is_secret_iff (a : option string) :
  is_secret a = true <-> a = Some senhaCorreta.
Proof.
  unfold is_secret. rewrite strict_equal_string.
  destruct a; cbn; split; intros H; inversion H; reflexivity.
Qed.

Lemma granted_iff (src : source) (p : nat) :
  granted src p = true <-> exists i, i < 3 /\ src (p + i) = Some senhaCorreta.
Proof.
  unfold granted. rewrite !orb_true_iff, !is_secret_iff. split.
  - intros [[H|H]|H]; [exists 0|exists 1|exists 2]; (split; [lia|]).
    + now rewrite Nat.add_0_r.
    + now rewrite Nat.add_1_r.
    + now replace (p + 2) with (S (S p)) by lia.
  - intros (i & Hi & H).
    assert (Hc : i = 0 \/ i = 1 \/ i = 2) by lia.
    destruct Hc as [ -> | [ -> | -> ] ].
    + left; left. now rewrite Nat.add_0_r in H.
    + left; right. now rewrite Nat.add_1_r in H.
    + right. now replace (p + 2) with (S (S p)) in H by lia.
Qed.

Section ValidaSenha.

Variable src : source.

(** One turn of the loop, whatever the answer. *)
Lemma validaSenha_body_returns (st : senha_state) (w : world) :
  returns src (validaSenha_body st) w
    (let a := of_answer (src (consumed w)) in
     let n := (tentativas st + 1)%Z in
     if is_secret (src (consumed w)) then inr (SenhaState n true a)
     else if (n <? 3)%Z then inl (SenhaState n (acesso st) a)
          else inr (SenhaState n (acesso st) a))
    (World (S (consumed w)) (trace w ++ [dialog])).
Proof.
  unfold validaSenha_body, is_secret.
  eapply returns_bind; [apply returns_prompt|]. cbv beta zeta.
  destruct (strict_equal (of_answer (src (consumed w))) (VStr senhaCorreta));
    [apply returns_ret|].
  destruct (tentativas st + 1 <? 3)%Z; apply returns_ret.
Qed.

Lemma validaSenha_loop_returns (w : world) :
  exists st,
    returns src validaSenha_loop w st
      (World (attempts_used src (consumed w) + consumed w)
         (trace w ++ repeat dialog (attempts_used src (consumed w)))) /\
    acesso st = granted src (consumed w) /\
    tentativas st = Z.of_nat (attempts_used src (consumed w)).
Proof.
  unfold validaSenha_loop, attempts_used, granted.
  pose proof (validaSenha_body_returns (SenhaState 0 false VUndefined) w) as H1.
  destruct (is_secret (src (consumed w))) eqn:E1; cbn in H1.
  { eexists. split; [apply returns_iter_stop; exact H1|]. split; reflexivity. }
  pose proof (validaSenha_body_returns (SenhaState 1 false (of_answer (src (consumed w))))
                (World (S (consumed w)) (trace w ++ [dialog]))) as H2.
  cbn [consumed trace] in H2. rewrite <- app_assoc in H2.
  destruct (is_secret (src (S (consumed w)))) eqn:E2; cbn in H2.
  { eexists. split.
    - eapply returns_iter_again; [exact H1|]. apply returns_iter_stop. exact H2.
    - split; reflexivity. }
  pose proof (validaSenha_body_returns (SenhaState 2 false (of_answer (src (S (consumed w)))))
                (World (S (S (consumed w))) (trace w ++ [dialog; dialog]))) as H3.
  cbn [consumed trace] in H3. rewrite <- app_assoc in H3.
  destruct (is_secret (src (S (S (consumed w))))) eqn:E3; cbn in H3.
  all: eexists; split;
    [ eapply returns_iter_again; [exact H1|];
      eapply returns_iter_again; [exact H2|];
      apply returns_iter_stop; exact H3
    | split; reflexivity ].
Qed.

Lemma validaSenha_returns (w : world) :
  returns src validaSenha w tt
    (World (attempts_used src (consumed w) + consumed w)
       (trace w ++ validaSenha_trace src (consumed w))).
Proof.
  destruct (validaSenha_loop_returns w) as (st & Hloop & Hacc & _).
  unfold validaSenha, validaSenha_trace. rewrite app_assoc.
  eapply returns_bind; [exact Hloop|]. rewrite Hacc.
  destruct (granted src (consumed w));
    apply (returns_console_log src _ (World _ _)).
Qed.

End ValidaSenha.

(** C1. [validaSenha] always returns.  Its loop ends with [acesso] set
    exactly when one of the first three answers is the password 123456,
    the third included; it then logs the access-granted message, and
    otherwise, after exactly three dialogs, the access-blocked message. *)
Theorem validaSenha_grants_iff_secret_in_three (src : source) (w : world) :
  exists st w1,
    returns src validaSenha_loop w st w1 /\
    (acesso st = true <->
       exists i, i < 3 /\ src (consumed w + i) = Some "123456") /\
    returns src validaSenha w tt
      (World (consumed w1)
         (trace w1 ++ [Logged [VStr (if acesso st then "Acesso concedido!"
                                     else "Senha bloqueada!")]])) /\
    trace w1 = trace w ++ repeat (Prompted "Digite a senha de acesso:")
                            (consumed w1 - consumed w) /\
    consumed w < consumed w1 <= consumed w + 3 /\
    (acesso st = false -> consumed w1 = consumed w + 3) /\
    (src (consumed w) <> Some "123456" ->
     src (consumed w + 1) <> Some "123456" ->
     src (consumed w + 2) = Some "123456" -> acesso st = true).
Proof.
  destruct (validaSenha_loop_returns src w) as (st & Hloop & Hacc & Hn).
  exists st. eexists. split; [exact Hloop|]. cbn [consumed trace].
  split; [rewrite Hacc; apply granted_iff|].
  split.
  { pose proof (validaSenha_returns src w) as H. unfold validaSenha_trace in H.
    rewrite app_assoc, <- Hacc in H. exact H. }
  split; [now rewrite Nat.add_sub|].
  assert (Hu : 1 <= attempts_used src (consumed w) <= 3).
  { unfold attempts_used.
    destruct (is_secret (src (consumed w))); [lia|].
    destruct (is_secret (src (S (consumed w)))); lia. }
  split; [lia|]. split.
  - rewrite Hacc. unfold granted, attempts_used.
    destruct (is_secret (src (consumed w))); [discriminate|].
    destruct (is_secret (src (S (consumed w)))); [discriminate|]. lia.
  - intros _ _ H3. rewrite Hacc. apply granted_iff. exists 2. split; [lia|exact H3].
Qed.

Example validaSenha_third_attempt :
  returns (feed [Some "senha"; None; Some "123456"] (fun _ => None)) validaSenha start tt
    (World 3 [dialog; dialog; dialog; Logged [VStr "Acesso concedido!"]]).
Proof.
  exact (validaSenha_returns
           (feed [Some "senha"; None; Some "123456"] (fun _ => None)) start).
Qed.

Example validaSenha_three_failures :
  returns (feed [Some "12345"; Some " 123456"; Some "123456 "] (fun _ => Some "123456"))
    validaSenha start tt
    (World 3 [dialog; dialog; dialog; Logged [VStr "Senha bloqueada!"]]).
Proof.
  exact (validaSenha_returns
           (feed [Some "12345"; Some " 123456"; Some "123456 "] (fun _ => Some "123456"))
           start).
Qed.

(** C10. An answer that is not exactly the string 123456 is a failed
    attempt: the turn returns normally, [tentativas] is one more than before,
    [acesso] is unchanged, and the loop goes on exactly when fewer than three
    attempts have been made.  Nothing is trimmed, folded or converted. *)
Theorem validaSenha_failed_attempt (src : source) (st : senha_state) (w : world) :
  of_answer (src (consumed w)) <> VStr "123456" ->
  exists st',
    returns src (validaSenha_body st) w
      (if (tentativas st + 1 <? 3)%Z then inl st' else inr st')
      (World (S (consumed w)) (trace w ++ [Prompted "Digite a senha de acesso:"])) /\
    tentativas st' = (tentativas st + 1)%Z /\
    acesso st' = acesso st /\
    tentativa st' = of_answer (src (consumed w)).
Proof.
  intros Hne.
  pose proof (validaSenha_body_returns src st w) as H. cbv zeta in H.
  assert (E : is_secret (src (consumed w)) = false).
  { destruct (is_secret (src (consumed w))) eqn:E; [|reflexivity].
    exfalso. apply Hne. now apply strict_equal_string. }
  rewrite E in H.
  exists (SenhaState (tentativas st + 1) (acesso st) (of_answer (src (consumed w)))).
  split; [|now repeat split].
  destruct (tentativas st + 1 <? 3)%Z; exact H.
Qed.

Lemma validaSenha_failed_attempt_witness :
  let st0 := SenhaState 0 false VUndefined in
  (exists st',
     returns (fun _ => None) (validaSenha_body st0) start (inl st')
       (World 1 [Prompted "Digite a senha de acesso:"]) /\
     tentativas st' = 1%Z /\ acesso st' = false /\ tentativa st' = VNull) /\
  (exists st',
     returns (fun _ => Some "") (validaSenha_body st0) start (inl st')
       (World 1 [Prompted "Digite a senha de acesso:"]) /\
     tentativas st' = 1%Z /\ acesso st' = false /\ tentativa st' = VStr "") /\
  (exists st',
     returns (fun _ => Some " 123456 ") (validaSenha_body st0) start (inl st')
       (World 1 [Prompted "Digite a senha de acesso:"]) /\
     tentativas st' = 1%Z /\ acesso st' = false /\ tentativa st' = VStr " 123456 ").
Proof.
  intros st0. repeat split.
  - apply (validaSenha_failed_attempt (fun _ => None) st0 start). discriminate.
  - apply (validaSenha_failed_attempt (fun _ => Some "") st0 start). discriminate.
  - apply (validaSenha_failed_attempt (fun _ => Some " 123456 ") st0 start). discriminate.
Defined.

(* ===================================================================== *)
(** ** 3. and 4. The lists *)
(* ===================================================================== *)

Section Lists.

Variable src : source.

(** [forEach] with a callback that logs the element. *)
Lemma forEach_log_returns (array : list number) :
  forall w,
    returns src (forEach array (fun numero => console_log [VNum numero])) w tt
      (World (consumed w)
         (trace w ++ map (fun numero => Logged [VNum numero]) array)).
Proof.
  induction array as [|x rest IH]; intros w; cbn [forEach map].
  - rewrite app_nil_r. destruct w. apply returns_ret.
  - eapply returns_bind; [apply returns_console_log|].
    change (trace w ++ Logged [VNum x] :: map (fun n => Logged [VNum n]) rest)
      with (trace w ++ [Logged [VNum x]] ++ map (fun n => Logged [VNum n]) rest).
    rewrite app_assoc. apply (IH (World _ _)).
Qed.

Lemma exibirListaFixa_returns (w : world) :
  returns src exibirListaFixa w tt
    (World (consumed w) (trace w ++ exibirListaFixa_trace)).
Proof.
  unfold exibirListaFixa.
  eapply returns_bind; [apply returns_console_log|].
  change (trace w ++ exibirListaFixa_trace)
    with (trace w ++ [Logged [VStr "Lista fixa de 4 números:"]]
            ++ map (fun n => Logged [VNum n]) lista).
  rewrite app_assoc. apply (forEach_log_returns lista (World _ _)).
Qed.

(** One turn of the [for] loop while [i < 5]. *)
Lemma solicitarCincoNumeros_body_again (i : Z) (numeros : list number) (w : world) :
  (i <? 5)%Z = true ->
  returns src (solicitarCincoNumeros_body (i, numeros)) w
    (inl ((i + 1)%Z, numeros ++ [parseFloat (src (consumed w))]))
    (World (S (consumed w))
       (trace w ++ [Prompted ("Digite o " ++ Z_to_string (i + 1) ++ "º número:")%string])).
Proof.
  intros Hi. unfold solicitarCincoNumeros_body. rewrite Hi.
  eapply returns_bind; [apply returns_prompt|]. apply returns_ret.
Qed.

Lemma solicitarCincoNumeros_for_returns (w : world) :
  returns src solicitarCincoNumeros_for w
    (map parseFloat (cinco_answers src (consumed w)))
    (World (5 + consumed w) (trace w ++ cinco_prompts)).
Proof.
  unfold solicitarCincoNumeros_for.
  do 5 (eapply returns_iter_again;
        [apply solicitarCincoNumeros_body_again; reflexivity|]).
  apply returns_iter_stop. cbn [consumed trace].
  rewrite <- !app_assoc.
  apply returns_ret.
Qed.

Lemma solicitarCincoNumeros_returns (w : world) :
  returns src solicitarCincoNumeros w tt
    (World (5 + consumed w)
       (trace w ++ solicitarCincoNumeros_trace src (consumed w))).
Proof.
  unfold solicitarCincoNumeros, solicitarCincoNumeros_trace.
  eapply returns_bind; [apply solicitarCincoNumeros_for_returns|].
  eapply returns_bind; [apply returns_console_log|].
  cbn [consumed trace].
  replace (trace w ++ cinco_prompts ++ Logged [VStr "Números digitados:"]
             :: map (fun a => Logged [VNum (parseFloat a)]) (cinco_answers src (consumed w)))
    with (((trace w ++ cinco_prompts) ++ [Logged [VStr "Números digitados:"]])
            ++ map (fun a => Logged [VNum (parseFloat a)]) (cinco_answers src (consumed w)))
    by (now rewrite <- !app_assoc).
  rewrite <- (map_map parseFloat (fun n => Logged [VNum n])).
  apply (forEach_log_returns _ (World _ _)).
Qed.

End Lists.

(** C5. [exibirListaFixa] returns on every source and from every world,
    reads no answer, and adds to the trace exactly the header line followed
    by the lines 10, 20, 30 and 40, in this order. *)
Theorem exibirListaFixa_emits_fixed_list (src : source) (w : world) :
  returns src exibirListaFixa w tt
    (World (consumed w)
       (trace w ++ [Logged [VStr "Lista fixa de 4 números:"];
                    Logged [VNum (of_Z 10)]; Logged [VNum (of_Z 20)];
                    Logged [VNum (of_Z 30)]; Logged [VNum (of_Z 40)]])).
Proof. apply exibirListaFixa_returns. Qed.

(** C4. On five answers [solicitarCincoNumeros] opens exactly five dialogs,
    labelled 1º to 5º; the array it fills holds the five parsed values in
    the order of arrival and has length 5; it then logs the header and the
    five values, one per line, in that order. *)
Theorem solicitarCincoNumeros_collects_five
  (inputs : list (option string)) (rest : source) :
  List.length inputs = 5 ->
  returns (feed inputs rest) solicitarCincoNumeros_for start
    (map parseFloat inputs)
    (World 5
       [Prompted "Digite o 1º número:"; Prompted "Digite o 2º número:";
        Prompted "Digite o 3º número:"; Prompted "Digite o 4º número:";
        Prompted "Digite o 5º número:"]) /\
  List.length (map parseFloat inputs) = 5 /\
  returns (feed inputs rest) solicitarCincoNumeros start tt
    (World 5
       ([Prompted "Digite o 1º número:"; Prompted "Digite o 2º número:";
         Prompted "Digite o 3º número:"; Prompted "Digite o 4º número:";
         Prompted "Digite o 5º número:"]
        ++ Logged [VStr "Números digitados:"]
           :: map (fun numero => Logged [VNum numero]) (map parseFloat inputs))).
Proof.
  intros Hlen.
  assert (Hin : cinco_answers (feed inputs rest) 0 = inputs).
  { destruct inputs as [|a [|b [|c [|d [|e [|f l]]]]]]; try discriminate. reflexivity. }
  pose proof (solicitarCincoNumeros_for_returns (feed inputs rest) start) as Hfor.
  pose proof (solicitarCincoNumeros_returns (feed inputs rest) start) as Hall.
  unfold solicitarCincoNumeros_trace in Hall.
  cbn [consumed trace start app Nat.add] in Hfor, Hall.
  rewrite Hin in Hfor, Hall. rewrite map_map.
  repeat split; [exact Hfor | now rewrite length_map | exact Hall].
Qed.

Lemma solicitarCincoNumeros_collects_five_witness :
  let inputs := [Some "1.5"; Some "2"; Some "-3"; Some "0"; Some "100"] in
  let numeros := [of_dyadic 3 (-1); of_Z 2; of_Z (-3); of_Z 0; of_Z 100] in
  map parseFloat inputs = numeros /\
  returns (feed inputs (fun _ => None)) solicitarCincoNumeros_for start numeros
    (World 5 cinco_prompts) /\
  List.length numeros = 5 /\
  returns (feed inputs (fun _ => None)) solicitarCincoNumeros start tt
    (World 5 (cinco_prompts ++ Logged [VStr "Números digitados:"]
                :: map (fun numero => Logged [VNum numero]) numeros)).
Proof.
  intros inputs numeros. split; [reflexivity|].
  apply (solicitarCincoNumeros_collects_five inputs (fun _ => None)).
  reflexivity.
Defined.

(* ===================================================================== *)
(** ** 5. to 8. The functions *)
(* ===================================================================== *)

Section NumberFacts.

Local Open Scope Z_scope.

(** [iter_pos] is the iteration of the standard library. *)
Lemma iter_pos_iter {A : Type} (f : A -> A) (p : positive) :
forall x, iter_pos f p x = Pos.iter f x p.
Proof.
induction p as [p IH|p IH|]; intros x; cbn [iter_pos Pos.iter].
- now rewrite !IH, <- !Pos.iter_swap.
- now rewrite !IH.
- reflexivity.
Qed.

Lemma digits2_pos_shift (m k : positive) :
digits2_pos (Pos.iter xO m k) = (digits2_pos m + k)%positive.
Proof.
induction k as [|k IH] using Pos.peano_ind.
- cbn. now rewrite Pos.add_1_r.
- rewrite Pos.iter_succ. cbn [digits2_pos]. rewrite IH. lia.
Qed.

(** Shifting right the bits that a shift to the left has added loses
  nothing. *)
Lemma shr_shift (m k : positive) :
iter_pos shr_1 k (Build_shr_record (Zpos (Pos.iter xO m k)) false false)
= Build_shr_record (Zpos m) false false.
Proof.
rewrite iter_pos_iter.
induction k as [|k IH] using Pos.peano_ind; [reflexivity|].
rewrite (Pos.iter_succ_r k _ shr_1), (Pos.iter_succ k _ xO). exact IH.
Qed.

Lemma iter_xO_mul (m k : positive) :
Pos.iter xO m k = (m * 2 ^ k)%positive.
Proof.
induction k as [|k IH] using Pos.peano_ind.
- cbn. lia.
- rewrite Pos.iter_succ, IH, Pos.pow_succ_r. lia.
Qed.

Lemma binary_round_align s m e :
binary_round prec emax s m e =
let '(mrs', e') := align_round m e in
let '(mrs'', e'') :=
  shr_fexp prec emax (round_nearest_even (shr_m mrs') (loc_of_shr_record mrs')) e' loc_Exact in
match shr_m mrs'' with
| Z0 => S754_zero s
| Zpos m => if e'' <=? emax - prec then S754_finite s m e'' else S754_infinity s
| _ => S754_nan
end.
Proof.
unfold binary_round, align_round, binary_round_aux.
destruct (shl_align m e _) as [mz ez]. reflexivity.
Qed.

Lemma align_round_shift (m k : positive) (e : Z) :
align_round (Pos.iter xO m k) e = align_round m (e + Zpos k).
Proof.
unfold align_round. rewrite digits2_pos_shift.
replace (Zpos (digits2_pos m + k) + e) with (Zpos (digits2_pos m) + (e + Zpos k)) by lia.
set (d := Zpos (digits2_pos m)).
set (t := fexp prec emax (d + (e + Zpos k))).
unfold shl_align.
destruct (t - e) as [|q|q] eqn:Ete.
- (* t = e *)
  destruct (t - (e + Zpos k)) as [|q'|q'] eqn:Etk; try lia.
  assert (q' = k) by lia. subst q'.
  assert (Ht : t = e) by lia. now rewrite Ht.
- (* e < t *)
  unfold shr_fexp at 1. cbn [Zdigits2]. rewrite digits2_pos_shift.
  replace (fexp prec emax (Zpos (digits2_pos m + k) + e)) with t
    by (unfold t, d; f_equal; lia).
  rewrite Ete. cbn [shr shr_record_of_loc].
  destruct (t - (e + Zpos k)) as [|q'|q'] eqn:Etk.
  + assert (q = k) by lia. subst q.
    unfold shr_fexp. cbn [Zdigits2]. fold d. fold t. rewrite Etk.
    cbn [shr shr_record_of_loc]. rewrite shr_shift. f_equal; lia.
  + assert (q = (q' + k)%positive) by lia. subst q.
    unfold shr_fexp. cbn [Zdigits2]. fold d. fold t. rewrite Etk.
    cbn [shr shr_record_of_loc].
    rewrite !iter_pos_iter, Pos.iter_add, <- (iter_pos_iter _ k), shr_shift.
    f_equal; lia.
  + assert (k = (q + q')%positive) by lia. subst k.
    unfold shr_fexp. cbn [Zdigits2]. rewrite digits2_pos_shift.
    replace (Zpos (digits2_pos m + q') + t) with (d + (e + Zpos (q + q')))
      by (unfold d; lia).
    fold t.
    rewrite Z.sub_diag. cbn [shr shr_record_of_loc].
    rewrite Pos.iter_add, shr_shift. f_equal; lia.
- (* t < e *)
  destruct (t - (e + Zpos k)) as [|q'|q'] eqn:Etk; try lia.
  assert (q' = (q + k)%positive) by lia. subst q'.
  now rewrite Pos.iter_add.
Qed.

(** Rounding sees the value only: [(m * 2^k) * 2^e] and [m * 2^(e + k)]
  round to the same number. *)
Lemma binary_round_shift s (m k : positive) (e : Z) :
binary_round prec emax s (Pos.iter xO m k) e = binary_round prec emax s m (e + Zpos k).
Proof. now rewrite !binary_round_align, align_round_shift. Qed.

(** A mantissa of [d] binary digits lies in [2^(d-1), 2^d). *)
Lemma digits2_pos_bounds (p : positive) :
2 ^ (Zpos (digits2_pos p) - 1) <= Zpos p < 2 ^ Zpos (digits2_pos p).
Proof.
induction p as [p IH|p IH|]; cbn [digits2_pos]; [| |cbn; lia].
all: rewrite Pos2Z.inj_succ;
  replace (Z.succ (Zpos (digits2_pos p)) - 1) with (Z.succ (Zpos (digits2_pos p) - 1)) by lia;
  rewrite !Z.pow_succ_r by lia; lia.
Qed.

Lemma digits2_pos_le (a b : positive) :
(a <= b)%positive -> (digits2_pos a <= digits2_pos b)%positive.
Proof.
intros Hab.
pose proof (digits2_pos_bounds a) as [Ha _].
pose proof (digits2_pos_bounds b) as [_ Hb].
assert (H : 2 ^ (Zpos (digits2_pos a) - 1) < 2 ^ Zpos (digits2_pos b)) by lia.
apply Z.pow_lt_mono_r_iff in H; lia.
Qed.

Lemma digits2_pos_small (p : positive) :
Zpos p < 2 ^ 53 -> Zpos (digits2_pos p) <= 53.
Proof.
intros Hp. pose proof (digits2_pos_bounds p) as [Hlo _].
assert (H : 2 ^ (Zpos (digits2_pos p) - 1) < 2 ^ 53) by lia.
apply Z.pow_lt_mono_r_iff in H; lia.
Qed.

(** A mantissa that is not too short needs no shift to the left. *)
Lemma binary_round_no_shift s (m : positive) (e : Z) :
e <= fexp prec emax (Zpos (digits2_pos m) + e) ->
binary_round prec emax s m e = binary_round_aux prec emax s (Zpos m) e loc_Exact.
Proof.
intros Ht. unfold binary_round, shl_align.
destruct (fexp prec emax (Zpos (digits2_pos m) + e) - e) eqn:E; try reflexivity. lia.
Qed.

Lemma binary_round_long s (m : positive) (e : Z) :
53 <= Zpos (digits2_pos m) ->
binary_round prec emax s m e = binary_round_aux prec emax s (Zpos m) e loc_Exact.
Proof.
intros Hd. apply binary_round_no_shift. unfold fexp, prec. lia.
Qed.

(** A mantissa of 53 digits with an exponent of the format is a number as
  it stands. *)
Lemma binary_round_aux_canonical s (m : positive) (e : Z) :
Zpos (digits2_pos m) = 53 -> -1074 <= e <= 971 ->
binary_round_aux prec emax s (Zpos m) e loc_Exact = S754_finite s m e.
Proof.
intros Hd He.
assert (Hs : shr_fexp prec emax (Zpos m) e loc_Exact
             = (Build_shr_record (Zpos m) false false, e)).
{ unfold shr_fexp. cbn [Zdigits2]. rewrite Hd.
  replace (fexp prec emax (53 + e) - e) with 0
    by (unfold fexp, SpecFloat.emin, prec, emax; lia).
  reflexivity. }
unfold binary_round_aux. rewrite Hs. cbn [shr_m loc_of_shr_record round_nearest_even].
rewrite Hs. cbn [shr_m].
replace (e <=? emax - prec) with true; [reflexivity|].
symmetry. apply Z.leb_le. unfold emax, prec. lia.
Qed.

(** The number of a non-zero integer below [2^53] in absolute value: a
  mantissa of 53 digits that holds the integer exactly. *)
Lemma binary_normalize_small (z : Z) :
z <> 0 -> Z.abs z < 2 ^ 53 ->
exists M E,
  binary_normalize prec emax z 0 false = S754_finite (z <? 0) M E /\
  -52 <= E <= 0 /\
  Zpos (digits2_pos M) = 53 /\
  cond_Zopp (z <? 0) (Zpos M) = z * 2 ^ (- E).
Proof.
intros Hz Habs.
assert (Hpos : forall s (p : positive), Zpos p < 2 ^ 53 ->
          exists M E,
            binary_round prec emax s p 0 = S754_finite s M E /\
            -52 <= E <= 0 /\ Zpos (digits2_pos M) = 53 /\
            Zpos M = Zpos p * 2 ^ (- E)).
{ intros s p Hp. pose proof (digits2_pos_small p Hp) as Hd.
  destruct (Z.eq_dec (Zpos (digits2_pos p)) 53) as [E53|Hlt].
  - exists p, 0. rewrite binary_round_long by lia.
    rewrite binary_round_aux_canonical by lia. repeat split; lia.
  - destruct (53 - Zpos (digits2_pos p)) as [|j|j] eqn:Ej; try lia.
    exists (Pos.iter xO p j), (- Zpos j).
    assert (Hdig : Zpos (digits2_pos (Pos.iter xO p j)) = 53).
    { rewrite digits2_pos_shift. lia. }
    replace 0 with (- Zpos j + Zpos j) at 1 by lia.
    rewrite <- binary_round_shift, binary_round_long by lia.
    rewrite binary_round_aux_canonical by lia.
    repeat split; try lia.
    rewrite iter_xO_mul, Z.opp_involutive, Pos2Z.inj_mul, Pos2Z.inj_pow. reflexivity. }
destruct z as [|p|p]; [congruence| |].
- destruct (Hpos false p Habs) as (M & E & H1 & H2 & H3 & H4).
  exists M, E. repeat split; auto; try lia.
- destruct (Hpos true p Habs) as (M & E & H1 & H2 & H3 & H4).
  exists M, E. repeat split; auto; try lia.
  cbn [Z.ltb Z.compare cond_Zopp]. rewrite H4. lia.
Qed.

(** [z * 2^J] at exponent [-J] is the integer [z]. *)
Lemma binary_normalize_scaled (z J : Z) :
0 <= J ->
binary_normalize prec emax (z * 2 ^ J) (- J) false = binary_normalize prec emax z 0 false.
Proof.
intros HJ. destruct J as [|k|k]; [|clear HJ|lia].
- now rewrite Z.mul_1_r.
- assert (Hk : forall p, Zpos p * 2 ^ Zpos k = Zpos (Pos.iter xO p k)).
  { intros p. now rewrite iter_xO_mul, Pos2Z.inj_mul, Pos2Z.inj_pow. }
  destruct z as [|p|p].
  + reflexivity.
  + rewrite Hk. cbn [binary_normalize].
    rewrite binary_round_shift. f_equal. lia.
  + replace (Zneg p * 2 ^ Zpos k) with (Zneg (Pos.iter xO p k))
      by (rewrite <- Pos2Z.opp_pos, <- Hk; lia).
    cbn [binary_normalize].
    rewrite binary_round_shift. f_equal. lia.
Qed.
Lemma exponentiate_2_of_Z (n : Z) :
Z.abs n < 2 ^ 53 -> exponentiate_2 (of_Z n) = of_Z (n * n).
Proof.
intros Hn. destruct (Z.eq_dec n 0) as [->|Hn0]; [reflexivity|].
destruct (binary_normalize_small n Hn0 Hn) as (M & E & HM & HE & Hd & Hv).
unfold of_Z. rewrite HM. cbn [exponentiate_2].
rewrite <- binary_round_long.
2:{ assert (Hle : (M <= M * M)%positive) by nia.
    apply digits2_pos_le in Hle. lia. }
change (binary_round prec emax false (M * M) (E + E))
  with (binary_normalize prec emax (Zpos (M * M)) (E + E) false).
replace (Zpos (M * M)) with ((n * n) * 2 ^ (- (E + E))).
- replace (E + E) with (- - (E + E)) at 2 by lia.
  apply binary_normalize_scaled. lia.
- replace (- (E + E)) with (- E + - E) by lia.
  rewrite Z.pow_add_r by lia. rewrite Pos2Z.inj_mul.
  destruct (n <? 0); cbn [cond_Zopp] in Hv.
  + replace (Zpos M * Zpos M) with (- Zpos M * - Zpos M) by ring.
    rewrite Hv. ring.
  + rewrite Hv. ring.
Qed.

Lemma shl_align_fst (m : positive) (e ez : Z) :
ez <= e -> Zpos (fst (shl_align m e ez)) = Zpos m * 2 ^ (e - ez).
Proof.
intros H. unfold shl_align. destruct (ez - e) as [|d|d] eqn:Ed; try lia.
- replace (e - ez) with 0 by lia. cbn [fst]. lia.
- cbn [fst]. rewrite iter_xO_mul, Pos2Z.inj_mul, Pos2Z.inj_pow.
  do 2 f_equal. lia.
Qed.

Lemma SFsub_of_Z (a b : Z) :
Z.abs a < 2 ^ 53 -> Z.abs b < 2 ^ 53 ->
Number.sub (of_Z a) (of_Z b) = of_Z (a - b).
Proof.
intros Ha Hb. unfold Number.sub.
destruct (Z.eq_dec b 0) as [->|Hb0].
{ rewrite Z.sub_0_r. destruct (Z.eq_dec a 0) as [->|Ha0]; [reflexivity|].
  destruct (binary_normalize_small a Ha0 Ha) as (M & E & HM & _).
  unfold of_Z. now rewrite HM. }
destruct (binary_normalize_small b Hb0 Hb) as (Mb & Eb & HMb & HEb & Hdb & Hvb).
destruct (Z.eq_dec a 0) as [->|Ha0].
{ assert (Hopp : Z.abs (0 - b) < 2 ^ 53) by lia.
  assert (Hne : 0 - b <> 0) by lia.
  destruct (binary_normalize_small (0 - b) Hne Hopp) as (M & E & HM & HE & Hd & Hv).
  unfold of_Z. rewrite HMb, HM. cbn [binary_normalize SFsub].
  assert (Hs : (0 - b <? 0) = negb (b <? 0)).
  { destruct (Z.ltb_spec (0 - b) 0), (Z.ltb_spec b 0); cbn; lia. }
  rewrite Hs in *.
  assert (HEq : E = Eb).
  { pose proof (digits2_pos_bounds M). pose proof (digits2_pos_bounds Mb).
    rewrite Hd in *. rewrite Hdb in *.
    assert (HZ : Zpos M * 2 ^ (- Eb) = Zpos Mb * 2 ^ (- E)).
    { destruct (b <? 0); cbn [negb cond_Zopp] in *; nia. }
    destruct (Z.lt_trichotomy E Eb) as [Hlt|[Heq|Hgt]]; [|exact Heq|]; exfalso.
    - replace (- E) with (- Eb + (Eb - E)) in HZ by lia.
      rewrite Z.pow_add_r in HZ by lia.
      assert (Hp : 0 < 2 ^ (- Eb)) by (apply Z.pow_pos_nonneg; lia).
      assert (HM2 : Zpos M = Zpos Mb * 2 ^ (Eb - E)) by nia.
      assert (2 ^ 1 <= 2 ^ (Eb - E)) by (apply Z.pow_le_mono_r; lia).
      change (2 ^ 1) with 2 in *. change (53 - 1) with 52 in *.
      assert (2 ^ 53 = 2 * 2 ^ 52) by reflexivity. nia.
    - replace (- Eb) with (- E + (E - Eb)) in HZ by lia.
      rewrite Z.pow_add_r in HZ by lia.
      assert (Hp : 0 < 2 ^ (- E)) by (apply Z.pow_pos_nonneg; lia).
      assert (HM2 : Zpos Mb = Zpos M * 2 ^ (E - Eb)) by nia.
      assert (2 ^ 1 <= 2 ^ (E - Eb)) by (apply Z.pow_le_mono_r; lia).
      change (2 ^ 1) with 2 in *. change (53 - 1) with 52 in *.
      assert (2 ^ 53 = 2 * 2 ^ 52) by reflexivity. nia. }
  subst E. f_equal.
  assert (Hp : 0 < 2 ^ (- Eb)) by (apply Z.pow_pos_nonneg; lia).
  destruct (b <? 0); cbn [negb cond_Zopp] in *; nia. }
destruct (binary_normalize_small a Ha0 Ha) as (Ma & Ea & HMa & HEa & Hda & Hva).
unfold of_Z. rewrite HMa, HMb. cbn [SFsub].
set (ez := Z.min Ea Eb).
assert (Hza : cond_Zopp (a <? 0) (Zpos (fst (shl_align Ma Ea ez))) = a * 2 ^ (- ez)).
{ rewrite shl_align_fst by (unfold ez; lia).
  replace (- ez) with (- Ea + (Ea - ez)) by lia.
  rewrite Z.pow_add_r by (unfold ez; lia).
  destruct (a <? 0); cbn [cond_Zopp] in *; nia. }
assert (Hzb : cond_Zopp (b <? 0) (Zpos (fst (shl_align Mb Eb ez))) = b * 2 ^ (- ez)).
{ rewrite shl_align_fst by (unfold ez; lia).
  replace (- ez) with (- Eb + (Eb - ez)) by lia.
  rewrite Z.pow_add_r by (unfold ez; lia).
  destruct (b <? 0); cbn [cond_Zopp] in *; nia. }
rewrite Hza, Hzb, <- Z.mul_sub_distr_r.
replace ez with (- - ez) at 2 by lia.
apply binary_normalize_scaled. unfold ez. lia.
Qed.

Lemma shr_1_nonneg (mrs : shr_record) : 0 <= shr_m mrs -> 0 <= shr_m (shr_1 mrs).
Proof.
destruct mrs as [m r s]. cbn [shr_m]. intros Hm.
destruct m as [|[p|p|]|p]; cbn; lia.
Qed.

Lemma shr_fexp_nonneg (m e : Z) (l : location) :
0 <= m -> 0 <= shr_m (fst (shr_fexp prec emax m e l)).
Proof.
intros Hm. unfold shr_fexp, shr.
assert (H0 : 0 <= shr_m (shr_record_of_loc m l)) by (destruct l as [|[]]; exact Hm).
destruct (fexp prec emax (Zdigits2 m + e) - e) as [|p|p]; cbn [fst]; auto.
rewrite iter_pos_iter. apply Pos.iter_invariant; auto using shr_1_nonneg.
Qed.

Lemma round_nearest_even_nonneg (m : Z) (l : location) :
0 <= m -> 0 <= round_nearest_even m l.
Proof.
intros Hm. unfold round_nearest_even.
destruct l as [|[]]; try lia. destruct (Z.even m); lia.
Qed.

(** Rounding a positive mantissa keeps the sign it is given and never
  gives NaN. *)
Lemma binary_round_aux_sign (s : bool) (m : positive) (e : Z) :
match binary_round_aux prec emax s (Zpos m) e loc_Exact with
| S754_zero s' | S754_infinity s' | S754_finite s' _ _ => s' = s
| S754_nan => False
end.
Proof.
unfold binary_round_aux.
pose proof (shr_fexp_nonneg (Zpos m) e loc_Exact) as H1.
destruct (shr_fexp prec emax (Zpos m) e loc_Exact) as [mrs' e'].
cbn [fst] in H1.
pose proof (shr_fexp_nonneg
              (round_nearest_even (shr_m mrs') (loc_of_shr_record mrs')) e' loc_Exact) as H2.
destruct (shr_fexp prec emax _ e' loc_Exact) as [mrs'' e''].
cbn [fst] in H2.
assert (H : 0 <= shr_m mrs'').
{ apply H2, round_nearest_even_nonneg, H1. lia. }
destruct (shr_m mrs'') as [|p|p]; [reflexivity| |lia].
destruct (e'' <=? emax - prec); reflexivity.
Qed.

Lemma exponentiate_2_nonneg (x : spec_float) :
SFltb x (S754_zero false) = true ->
SFleb (S754_zero false) (exponentiate_2 x) = true.
Proof.
destruct x as [s|s| |s m e]; cbn; try discriminate; try reflexivity.
intros _.
pose proof (binary_round_aux_sign false (m * m) (e + e)) as H.
destruct (binary_round_aux prec emax false (Zpos (m * m)) (e + e) loc_Exact)
  as [s'|s'| |s' m' e']; try contradiction; subst s'; reflexivity.
Qed.

Lemma exponentiate_2_mul (x : spec_float) : exponentiate_2 x = Number.mul x x.
Proof.
destruct x as [s|s| |s m e]; cbn; now rewrite ?xorb_nilpotent.
Qed.

(** The square of a finite number [M * 2^E] of the format is the number
  nearest to the exact square [(M * M) * 2^(E + E)]. *)
Lemma exponentiate_2_finite (s : bool) (M : positive) (E : Z) :
valid (S754_finite s M E) = true ->
exponentiate_2 (S754_finite s M E) = of_dyadic (Zpos M * Zpos M) (E + E).
Proof.
unfold valid, valid_binary, bounded, canonical_mantissa.
rewrite andb_true_iff, Z.eqb_eq, Z.leb_le. intros [Hc Hb].
cbn [exponentiate_2]. unfold of_dyadic.
change (Zpos M * Zpos M) with (Zpos (M * M)). cbn [binary_normalize].
symmetry. apply binary_round_no_shift.
assert (Hle : (M <= M * M)%positive) by nia.
apply digits2_pos_le in Hle.
unfold fexp, SpecFloat.emin, prec, emax in *. lia.
Qed.

(** The difference of two finite numbers is the number nearest to the exact
  difference, taken at the smaller of the two exponents. *)
Lemma sub_finite (sx sy : bool) (mx my : positive) (ex ey : Z) :
Number.sub (S754_finite sx mx ex) (S754_finite sy my ey) =
of_dyadic (cond_Zopp sx (Zpos mx) * 2 ^ (ex - Z.min ex ey)
           - cond_Zopp sy (Zpos my) * 2 ^ (ey - Z.min ex ey))
  (Z.min ex ey).
Proof.
unfold Number.sub, of_dyadic. cbn [SFsub].
rewrite !shl_align_fst by lia.
destruct sx, sy; cbn [cond_Zopp]; f_equal; ring.
Qed.

End NumberFacts.

(** C6. [calcularQuadrado] is the square of the host arithmetic: it is the
    product of its argument with itself; on a finite number it is the number
    nearest to the exact square; on the number of an integer below [2^53] in
    absolute value it is the number of the integer square.  The square of a
    negative number is never negative.  The squares of 5, -4 and 0 are 25, 16
    and 0. *)
Theorem calcularQuadrado_square :
  (forall numero, calcularQuadrado numero = Number.mul numero numero) /\
  (forall s M E,
      valid (S754_finite s M E) = true ->
      calcularQuadrado (S754_finite s M E) = of_dyadic (Zpos M * Zpos M) (E + E)) /\
  (forall n : Z, (Z.abs n < 2 ^ 53)%Z -> calcularQuadrado (of_Z n) = of_Z (n * n)) /\
  (forall numero,
      lessThan numero (of_Z 0) = true ->
      lessEq (of_Z 0) (calcularQuadrado numero) = true) /\
  calcularQuadrado (of_Z 5) = of_Z 25 /\
  calcularQuadrado (of_Z (-4)) = of_Z 16 /\
  calcularQuadrado (of_Z 0) = of_Z 0.
Proof.
  repeat split.
  - apply exponentiate_2_mul.
  - apply exponentiate_2_finite.
  - apply exponentiate_2_of_Z.
  - apply exponentiate_2_nonneg.
Qed.

(** C7. [Subtracao] is the difference of the host arithmetic on every pair
    of numbers, with nothing checked and no case of its own.  The result is
    given for every pair: NaN when an operand is NaN or when both are the
    same infinity; the infinity that decides when one operand is infinite;
    the sign rule of the zeros; the other operand, negated on the right,
    when one is zero; and on two finite numbers the number nearest to the
    exact difference.  On the numbers of two integers below [2^53] in
    absolute value it is the number of the integer difference.  10 - 3 is 7
    and 3 - 10 is -7. *)
Theorem Subtracao_difference :
  (forall a b, Subtracao a b = Number.sub a b) /\
  (forall a b,
      Subtracao a b =
      match a, b with
      | S754_nan, _ | _, S754_nan => NaN
      | S754_infinity sa, S754_infinity sb =>
          if Bool.eqb sa sb then NaN else S754_infinity sa
      | S754_infinity sa, _ => S754_infinity sa
      | _, S754_infinity sb => S754_infinity (negb sb)
      | S754_zero sa, S754_zero sb => S754_zero (sa && negb sb)
      | S754_zero _, S754_finite sb mb eb => S754_finite (negb sb) mb eb
      | S754_finite sa ma ea, S754_zero _ => S754_finite sa ma ea
      | S754_finite sa ma ea, S754_finite sb mb eb =>
          of_dyadic (cond_Zopp sa (Zpos ma) * 2 ^ (ea - Z.min ea eb)
                     - cond_Zopp sb (Zpos mb) * 2 ^ (eb - Z.min ea eb))%Z
            (Z.min ea eb)
      end) /\
  (forall a b : Z,
      (Z.abs a < 2 ^ 53)%Z -> (Z.abs b < 2 ^ 53)%Z ->
      Subtracao (of_Z a) (of_Z b) = of_Z (a - b)) /\
  (forall sx sy mx my ex ey,
      Subtracao (S754_finite sx mx ex) (S754_finite sy my ey) =
      of_dyadic (cond_Zopp sx (Zpos mx) * 2 ^ (ex - Z.min ex ey)
                 - cond_Zopp sy (Zpos my) * 2 ^ (ey - Z.min ex ey))%Z
        (Z.min ex ey)) /\
  (forall b, Subtracao NaN b = NaN) /\
  (forall a, Subtracao a NaN = NaN) /\
  Subtracao pos_infinity pos_infinity = NaN /\
  Subtracao (of_Z 10) (of_Z 3) = of_Z 7 /\
  Subtracao (of_Z 3) (of_Z 10) = of_Z (-7).
Proof.
  split; [reflexivity|]. split.
  { intros [[]|[]| |sa ma ea] [[]|[]| |sb mb eb]; try reflexivity.
    apply sub_finite. }
  repeat split.
  - apply SFsub_of_Z.
  - apply sub_finite.
  - now intros [ | | | ].
Qed.

(* ===================================================================== *)
(** ** The script as a whole *)
(* ===================================================================== *)

Lemma returns_to {R : Type} (src : source) (t : itree ioE R) w r w1 w2 :
  returns src t w r w1 -> w1 = w2 -> returns src t w r w2.
Proof. now intros H <-. Qed.

(** *** Runs that are out of fuel *)

Lemma run_bind_out_inv {A R : Type} (src : source) (k : A -> itree ioE R) (m : nat) :
  forall (t : itree ioE A) w w',
    run m src (ITree.bind t k) w = OutOfFuel w' ->
    run m src t w = OutOfFuel w' \/
    exists a w1 m', m' <= m /\ run m src t w = Done a w1 /\
                    run m' src (k a) w1 = OutOfFuel w'.
Proof.
  induction m as [|m IH]; intros t w w' H.
  - left. cbn in *. now inversion H.
  - cbn [run] in H. rewrite observe_bind_cases in H. cbn [run].
    destruct (observe t) as [a|t'|X e h].
    + right. exists a, w, (S m). repeat split; [lia|exact H].
    + destruct (IH _ _ _ H) as [Ho|(a & w1 & m' & Hm' & Hd & Ho)]; [now left|].
      right. exists a, w1, m'. repeat split; auto.
    + destruct (handle src e w) as [x w0].
      destruct (IH _ _ _ H) as [Ho|(a & w1 & m' & Hm' & Hd & Ho)]; [now left|].
      right. exists a, w1, m'. repeat split; auto.
Qed.

Lemma run_console_log_out (src : source) (args : list value) (m : nat) w w' :
  run m src (console_log args) w = OutOfFuel w' ->
  w' = w \/ w' = World (consumed w) (trace w ++ [Logged args]).
Proof.
  destruct m as [|[|m]]; cbn; intros H; inversion H; auto.
Qed.

Lemma run_prompt_out (src : source) (label : string) (m : nat) w w' :
  run m src (prompt label) w = OutOfFuel w' ->
  w' = w \/ w' = World (S (consumed w)) (trace w ++ [Prompted label]).
Proof.
  destruct m as [|[|m]]; cbn; intros H; inversion H; auto.
Qed.

(** On [never_three] the loop only ever adds its own two events. *)
Lemma loopWhile_iter_never_three (m : nat) :
  forall w w',
    run m never_three (ITree.iter loopWhile_body NaN) w = OutOfFuel w' ->
    forall ev, In ev (trace w') ->
      In ev (trace w) \/ ev = Logged (digitou (Some "abc"))
      \/ ev = Prompted "Digite outro número:".
Proof.
  induction m as [m IH] using lt_wf_ind. intros w w' H ev Hev.
  destruct m as [|[|[|m]]].
  - inversion H; subst. now left.
  - inversion H; subst. cbn [trace] in Hev.
    apply in_app_or in Hev. destruct Hev as [Hev|[<-|[]]]; auto.
  - inversion H; subst. cbn [trace] in Hev.
    apply in_app_or in Hev. destruct Hev as [Hev|[<-|[]]]; auto.
    apply in_app_or in Hev. destruct Hev as [Hev|[<-|[]]]; auto.
  - change (run (S (S (S m))) never_three (ITree.iter loopWhile_body NaN) w)
      with (run m never_three (ITree.iter loopWhile_body NaN)
              (World (S (consumed w))
                 ((trace w ++ [Logged (digitou (Some "abc"))])
                    ++ [Prompted "Digite outro número:"]))) in H.
    destruct (IH m ltac:(lia) _ _ H ev Hev) as [Hin|Hown]; [|now right].
    cbn [trace] in Hin.
    apply in_app_or in Hin. destruct Hin as [Hin|[<-|[]]]; auto.
    apply in_app_or in Hin. destruct Hin as [Hin|[<-|[]]]; auto.
Qed.

(** C8, as stated, fails on a user who never types a number: the script
    never returns, and however long it runs the password dialog of
    [validaSenha] is never opened. *)
Lemma script_stuck_in_loopWhile :
  ~ terminates never_three script start /\
  ~ (exists fuel w',
        run fuel never_three script start = OutOfFuel w' /\
        In (Prompted "Digite a senha de acesso:") (trace w')).
Proof.
  split.
  - intros (r & w' & H). unfold script in H.
    apply returns_bind_inv in H. destruct H as ([] & w1 & _ & H).
    apply returns_bind_inv in H. destruct H as ([] & w2 & [m H] & _).
    revert H. now apply loopWhile_stuck.
  - intros (fuel & w' & H & Hin). unfold script in H.
    apply run_bind_out_inv in H.
    destruct H as [H|([] & w1 & m1 & _ & Hd & H)].
    { apply run_console_log_out in H. destruct H as [->| ->]; cbn in Hin.
      - exact Hin.
      - destruct Hin as [Hin|[]]. discriminate. }
    destruct (returns_det never_three _ _ _ _ _ _
                (ex_intro _ _ Hd) (returns_console_log never_three _ start)) as [_ ->].
    clear Hd. apply run_bind_out_inv in H.
    destruct H as [H|([] & w2 & m2 & _ & Hd & _)].
    2:{ revert Hd. now apply loopWhile_stuck. }
    unfold loopWhile in H. apply run_bind_out_inv in H.
    destruct H as [H|(a & w2 & m2 & _ & Hd & H)].
    { apply run_prompt_out in H. destruct H as [->| ->]; cbn in Hin.
      - destruct Hin as [Hin|[]]. discriminate.
      - destruct Hin as [Hin|[Hin|[]]]; discriminate. }
    destruct (returns_det never_three _ _ _ _ _ _
                (ex_intro _ _ Hd) (returns_prompt never_three _ _)) as [-> ->].
    clear Hd. apply run_bind_out_inv in H.
    destruct H as [H|([] & w3 & m3 & _ & Hd & _)].
    2:{ revert Hd. now apply (loopWhile_iter_stuck never_three m2 0 (World 1 _)). }
    destruct (loopWhile_iter_never_three _ _ _ H _ Hin) as [Hin'|[Hin'|Hin']];
      try discriminate.
    cbn in Hin'. destruct Hin' as [Hin'|[Hin'|[]]]; discriminate.
Qed.

(** C8, amended.  When some answer parses to 3, so that [loopWhile]
    returns, the script returns after running each component once, in the
    order [loopWhile], [validaSenha], [exibirListaFixa],
    [solicitarCincoNumeros], the text functions and the square, [Subtracao].
    A header line comes before each of the first four; the functions share
    the header of the last section. *)
Theorem script_runs_components_in_order (src : source) (k : nat) :
  (forall j, j < k -> is_three (src j) = false) ->
  is_three (src k) = true ->
  returns src script start tt
    (World (5 + (attempts_used src (S k) + S k))
       (Logged [VStr "=== LOOP WHILE ==="]
          :: loopWhile_trace src 0 k
        ++ Logged [VStr (LF ++ "=== VALIDAÇÃO DE SENHA (do...while) ===")%string]
          :: validaSenha_trace src (S k)
        ++ Logged [VStr (LF ++ "=== LISTA FIXA ===")%string]
          :: exibirListaFixa_trace
        ++ Logged [VStr (LF ++ "=== SOLICITAÇÃO DE 5 NÚMEROS ===")%string]
          :: solicitarCincoNumeros_trace src (attempts_used src (S k) + S k)
        ++ [Logged [VStr (LF ++ "=== FUNÇÕES ===")%string];
            Logged [VStr mensagemPersonalizada];
            Logged [VStr (saudacao "Ana")];
            Logged [VStr "Quadrado de 5:"; VNum (calcularQuadrado (of_Z 5))];
            Logged [VStr "Subtração de 10 e 3:"; VNum (Subtracao (of_Z 10) (of_Z 3))]])).
Proof.
  intros Hpre Hk. unfold script.
  eapply returns_bind; [apply returns_console_log|].
  eapply returns_bind; [apply (loopWhile_returns src k (World 0 _)); assumption|].
  eapply returns_bind; [apply returns_console_log|].
  eapply returns_bind; [apply validaSenha_returns|].
  eapply returns_bind; [apply returns_console_log|].
  eapply returns_bind; [apply exibirListaFixa_returns|].
  eapply returns_bind; [apply returns_console_log|].
  eapply returns_bind; [apply solicitarCincoNumeros_returns|].
  do 4 (eapply returns_bind; [apply returns_console_log|]).
  eapply returns_to; [apply returns_console_log|].
  cbn [consumed trace start Nat.add app].
  f_equal. rewrite <- !app_assoc. reflexivity.
Qed.

Lemma script_runs_components_in_order_witness :
  returns session script start tt
    (World 9
       [Logged [VStr "=== LOOP WHILE ==="];
        Prompted "Digite um número:";
        Logged [VStr "Você digitou:"; VNum (of_Z 7)];
        Prompted "Digite outro número:";
        Logged [VStr "Número 3 digitado. Encerrando o loop."];
        Logged [VStr (LF ++ "=== VALIDAÇÃO DE SENHA (do...while) ===")%string];
        Prompted "Digite a senha de acesso:";
        Prompted "Digite a senha de acesso:";
        Logged [VStr "Acesso concedido!"];
        Logged [VStr (LF ++ "=== LISTA FIXA ===")%string];
        Logged [VStr "Lista fixa de 4 números:"];
        Logged [VNum (of_Z 10)]; Logged [VNum (of_Z 20)];
        Logged [VNum (of_Z 30)]; Logged [VNum (of_Z 40)];
        Logged [VStr (LF ++ "=== SOLICITAÇÃO DE 5 NÚMEROS ===")%string];
        Prompted "Digite o 1º número:"; Prompted "Digite o 2º número:";
        Prompted "Digite o 3º número:"; Prompted "Digite o 4º número:";
        Prompted "Digite o 5º número:";
        Logged [VStr "Números digitados:"];
        Logged [VNum (of_dyadic 3 (-1))]; Logged [VNum (of_Z 2)];
        Logged [VNum (of_Z (-3))]; Logged [VNum (of_Z 0)];
        Logged [VNum (of_Z 100)];
        Logged [VStr (LF ++ "=== FUNÇÕES ===")%string];
        Logged [VStr "Bem-vindo ao programa de Ciência de Dados!"];
        Logged [VStr "Olá, Ana, que bom ter você no programa Trilhas."];
        Logged [VStr "Quadrado de 5:"; VNum (of_Z 25)];
        Logged [VStr "Subtração de 10 e 3:"; VNum (of_Z 7)]]).
Proof.
  apply (script_runs_components_in_order session 1).
  - intros [|j] Hj; [reflexivity|lia].
  - reflexivity.
Defined.

(* ===================================================================== *)
(** ** Runs cut short *)
(* ===================================================================== *)

Section Cut.

Variable src : source.

(** A run only adds to the trace, and reads at most one answer per step. *)
Lemma run_grows {R : Type} (m : nat) :
  forall (t : itree ioE R) w,
    (exists l, trace (outcome_world (run m src t w)) = trace w ++ l) /\
    consumed w <= consumed (outcome_world (run m src t w)) <= consumed w + m.
Proof.
  induction m as [|m IH]; intros t w; cbn [run].
  - split; [exists []; now rewrite app_nil_r | cbn; lia].
  - destruct (observe t) as [r|t'|X e k].
    + split; [exists []; now rewrite app_nil_r | cbn; lia].
    + destruct (IH t' w) as [Hl Hc]. split; [exact Hl|lia].
    + destruct e as [label|args]; cbn [handle].
      * destruct (IH (k (src (consumed w)))
                    (World (S (consumed w)) (trace w ++ [Prompted label]))) as [[l Hl] Hc].
        cbn [consumed trace] in *. split; [|lia].
        exists (Prompted label :: l). now rewrite Hl, <- app_assoc.
      * destruct (IH (k tt) (World (consumed w) (trace w ++ [Logged args]))) as [[l Hl] Hc].
        cbn [consumed trace] in *. split; [|lia].
        exists (Logged args :: l). now rewrite Hl, <- app_assoc.
Qed.

(** What a shorter run has shown is an initial part of what a longer run
    shows. *)
Lemma run_prefix {R : Type} (m : nat) :
  forall n (t : itree ioE R) w,
    m <= n ->
    (exists l, trace (outcome_world (run n src t w))
               = trace (outcome_world (run m src t w)) ++ l) /\
    consumed (outcome_world (run m src t w)) <= consumed (outcome_world (run n src t w)).
Proof.
  induction m as [|m IH]; intros n t w Hmn.
  - cbn [run outcome_world]. destruct (run_grows n t w) as [Hl Hc]. split; [exact Hl|lia].
  - destruct n as [|n]; [lia|]. cbn [run].
    destruct (observe t) as [r|t'|X e k].
    + split; [exists []; now rewrite app_nil_r | lia].
    + apply IH. lia.
    + destruct (handle src e w) as [x w1]. apply IH. lia.
Qed.

(** Every moment of a run that returns shows an initial part of the final
    trace. *)
Lemma run_prefix_of_returns {R : Type} (t : itree ioE R) w r wf :
  returns src t w r wf ->
  forall m,
    (exists l, trace wf = trace (outcome_world (run m src t w)) ++ l) /\
    consumed (outcome_world (run m src t w)) <= consumed wf.
Proof.
  intros [n Hn] m. destruct (Nat.le_ge_cases m n) as [Hle|Hge].
  - pose proof (run_prefix m n t w Hle) as H. now rewrite Hn in H.
  - rewrite (run_mono src n t w r wf Hn m Hge). cbn [outcome_world].
    split; [exists []; now rewrite app_nil_r | lia].
Qed.

End Cut.

(** A run of [m] steps from [w] only reads the answers below
    [consumed w + m]. *)
Lemma run_ext {R : Type} (src1 src2 : source) (m : nat) :
  forall (t : itree ioE R) w,
    (forall i, consumed w <= i < consumed w + m -> src1 i = src2 i) ->
    run m src1 t w = run m src2 t w.
Proof.
  induction m as [|m IH]; intros t w H; [reflexivity|]. cbn [run].
  destruct (observe t) as [r|t'|X e k]; [reflexivity| |].
  - apply IH. intros i Hi. apply H. lia.
  - destruct e as [label|args]; cbn [handle].
    + rewrite (H (consumed w)) by lia. apply IH.
      cbn [consumed]. intros i Hi. apply H. lia.
    + apply IH. cbn [consumed]. intros i Hi. apply H. lia.
Qed.

(* ===================================================================== *)
(** ** More on [loopWhile] *)
(* ===================================================================== *)

Lemma loopWhile_echo_In (src : source) (k : nat) :
  forall p ev,
    In ev (loopWhile_echo src p k) ->
    ev = Prompted "Digite outro número:" \/
    exists i, p <= i < p + k /\ ev = Logged (digitou (src i)).
Proof.
  induction k as [|k IH]; intros p ev H; [contradiction|].
  cbn [loopWhile_echo] in H. destruct H as [<-|[<-|H]].
  - right. exists p. split; [lia|reflexivity].
  - now left.
  - destruct (IH (S p) ev H) as [->|(i & Hi & ->)]; [now left|].
    right. exists i. split; [lia|reflexivity].
Qed.

(** X1. Whatever the answers and however long the run, cut short or not,
    [loopWhile] adds to the trace only its own two dialogs, its closing
    line and digitou lines, and no digitou line ever carries the number 3. *)
Theorem loopWhile_never_echoes_three (src : source) (fuel : nat) (w : world) (ev : event) :
  In ev (trace (outcome_world (run fuel src loopWhile w))) ->
  In ev (trace w) \/ loop_event ev.
Proof.
  set (n := consumed w + fuel). set (src' := then_three src n).
  rewrite (run_ext src src' fuel loopWhile w).
  2:{ intros i Hi. unfold src', then_three.
      destruct (Nat.ltb_spec i n) as [_|Hge]; [reflexivity|unfold n in Hge; lia]. }
  assert (Hn : is_three (src' (consumed w + fuel)) = true).
  { unfold src', then_three. fold n. now rewrite Nat.ltb_irrefl. }
  destruct (first_true (fun j => is_three (src' (consumed w + j))) fuel Hn)
    as (k & _ & Hk & Hpre).
  pose proof (loopWhile_returns src' k w Hpre Hk) as Hret.
  destruct (run_prefix_of_returns src' _ _ _ _ Hret fuel) as [[l Hl] _].
  cbn [trace] in Hl. intros Hev.
  assert (Hin : In ev (trace w ++ loopWhile_trace src' (consumed w) k)).
  { rewrite Hl. apply in_or_app. now left. }
  apply in_app_or in Hin. destruct Hin as [Hin|Hin]; [now left|]. right.
  destruct Hin as [<-|Hin]; [now left|].
  apply in_app_or in Hin. destruct Hin as [Hin|[<-|[]]]; [|now left].
  apply loopWhile_echo_In in Hin. destruct Hin as [->|(i & Hi & ->)]; [now right|].
  right. exists (parseInt (src' i)). split; [reflexivity|].
  replace i with (consumed w + (i - consumed w)) by lia. apply Hpre. lia.
Qed.

Lemma loopWhile_never_echoes_three_witness :
  In (Logged (digitou (Some "abc"))) (trace start)
  \/ loop_event (Logged (digitou (Some "abc"))).
Proof.
  apply (loopWhile_never_echoes_three never_three 5 start).
  cbn. right. now left.
Defined.

(* ===================================================================== *)
(** ** More on [validaSenha] *)
(* ===================================================================== *)

Lemma is_secret_false (a : option string) :
  a <> Some "123456" -> is_secret a = false.
Proof.
  intros H. destruct (is_secret a) eqn:E; [|reflexivity].
  apply is_secret_iff in E. contradiction.
Qed.

Lemma attempts_used_bounds (src : source) (p : nat) :
  1 <= attempts_used src p <= 3.
Proof.
  unfold attempts_used.
  destruct (is_secret (src p)); [lia|]. destruct (is_secret (src (S p))); lia.
Qed.

(** X2. [validaSenha] stops asking at the first correct answer: when the
    first answer equal to the password is the one at index [i < 3], exactly
    [i + 1] dialogs are opened, the later answers are left unread, and
    access is granted. *)
Theorem validaSenha_stops_at_first_match (src : source) (w : world) (i : nat) :
  i < 3 ->
  src (consumed w + i) = Some "123456" ->
  (forall j, j < i -> src (consumed w + j) <> Some "123456") ->
  returns src validaSenha w tt
    (World (consumed w + i + 1)
       (trace w ++ repeat (Prompted "Digite a senha de acesso:") (i + 1)
          ++ [Logged [VStr "Acesso concedido!"]])).
Proof.
  intros Hi Hhit Hmiss.
  eapply returns_to; [apply validaSenha_returns|].
  unfold validaSenha_trace, attempts_used, granted.
  apply is_secret_iff in Hhit.
  assert (Hc : i = 0 \/ i = 1 \/ i = 2) by lia.
  destruct Hc as [ -> | [ -> | -> ] ].
  - rewrite Nat.add_0_r in Hhit. rewrite Hhit. cbn. f_equal. lia.
  - rewrite Nat.add_1_r in Hhit.
    rewrite (is_secret_false (src (consumed w))).
    2:{ generalize (Hmiss 0). rewrite Nat.add_0_r. intros G. apply G. lia. }
    rewrite Hhit. cbn. f_equal. lia.
  - replace (consumed w + 2) with (S (S (consumed w))) in Hhit by lia.
    rewrite (is_secret_false (src (consumed w))).
    2:{ generalize (Hmiss 0). rewrite Nat.add_0_r. intros G. apply G. lia. }
    rewrite (is_secret_false (src (S (consumed w)))).
    2:{ generalize (Hmiss 1). rewrite Nat.add_1_r. intros G. apply G. lia. }
    rewrite Hhit. cbn. f_equal. lia.
Qed.

Lemma validaSenha_stops_at_first_match_witness :
  returns (feed [Some "errada"; Some "123456"; Some "1.5"] (fun _ => None))
    validaSenha start tt
    (World 2 [Prompted "Digite a senha de acesso:";
              Prompted "Digite a senha de acesso:";
              Logged [VStr "Acesso concedido!"]]).
Proof.
  apply (validaSenha_stops_at_first_match
           (feed [Some "errada"; Some "123456"; Some "1.5"] (fun _ => None)) start 1).
  - lia.
  - reflexivity.
  - intros [|j] Hj; [discriminate|lia].
Defined.

Section ValidaSenhaState.

Variable src : source.

Lemma validaSenha_loop_final (w : world) :
  returns src validaSenha_loop w (validaSenha_final src (consumed w))
    (World (attempts_used src (consumed w) + consumed w)
       (trace w ++ repeat dialog (attempts_used src (consumed w)))).
Proof.
  unfold validaSenha_loop, validaSenha_final, attempts_used.
  pose proof (validaSenha_body_returns src (SenhaState 0 false VUndefined) w) as H1.
  destruct (is_secret (src (consumed w))) eqn:E1; cbn in H1.
  { apply returns_iter_stop. exact H1. }
  pose proof (validaSenha_body_returns src
                (SenhaState 1 false (of_answer (src (consumed w))))
                (World (S (consumed w)) (trace w ++ [dialog]))) as H2.
  cbn [consumed trace] in H2. rewrite <- app_assoc in H2.
  destruct (is_secret (src (S (consumed w)))) eqn:E2; cbn in H2.
  { eapply returns_iter_again; [exact H1|]. apply returns_iter_stop. exact H2. }
  pose proof (validaSenha_body_returns src
                (SenhaState 2 false (of_answer (src (S (consumed w)))))
                (World (S (S (consumed w))) (trace w ++ [dialog; dialog]))) as H3.
  cbn [consumed trace] in H3. rewrite <- app_assoc in H3.
  eapply returns_iter_again; [exact H1|].
  eapply returns_iter_again; [exact H2|].
  apply returns_iter_stop.
  destruct (is_secret (src (S (S (consumed w))))) eqn:E3; cbn in H3; exact H3.
Qed.

End ValidaSenhaState.

(** X3. When the loop of [validaSenha] ends, [tentativas] is the number of
    dialogs it has opened, [tentativa] is the last answer read, and [acesso]
    is set exactly when that last answer is the password. *)
Theorem validaSenha_counter_counts_dialogs (src : source) (w : world) :
  exists st w1,
    returns src validaSenha_loop w st w1 /\
    tentativas st = Z.of_nat (consumed w1 - consumed w) /\
    tentativa st = of_answer (src (consumed w1 - 1)) /\
    (acesso st = true <-> tentativa st = VStr "123456").
Proof.
  exists (validaSenha_final src (consumed w)). eexists.
  split; [apply validaSenha_loop_final|]. cbn [consumed].
  rewrite Nat.add_sub. unfold validaSenha_final, attempts_used.
  destruct (is_secret (src (consumed w))) eqn:E1.
  { replace (1 + consumed w - 1) with (consumed w) by lia.
    cbn [tentativas tentativa acesso]. repeat split; auto.
    intros _. now apply strict_equal_string. }
  destruct (is_secret (src (S (consumed w)))) eqn:E2.
  { replace (2 + consumed w - 1) with (S (consumed w)) by lia.
    cbn [tentativas tentativa acesso]. repeat split; auto.
    intros _. now apply strict_equal_string. }
  replace (3 + consumed w - 1) with (S (S (consumed w))) by lia.
  cbn [tentativas tentativa acesso]. repeat split; auto.
  - intros H. now apply strict_equal_string.
  - intros H. now apply strict_equal_string.
Qed.

(** X4. At every moment of a run of [validaSenha], what has been shown is an
    initial part of its final trace, the dialogs and then the verdict, and
    at most three answers have been read. *)
Theorem validaSenha_never_more_than_three (src : source) (w : world) (fuel : nat) :
  (exists rest,
      trace w ++ validaSenha_trace src (consumed w)
      = trace (outcome_world (run fuel src validaSenha w)) ++ rest) /\
  consumed (outcome_world (run fuel src validaSenha w)) <= consumed w + 3.
Proof.
  pose proof (validaSenha_returns src w) as Hret.
  destruct (run_prefix_of_returns src _ _ _ _ Hret fuel) as [Hl Hc].
  cbn [trace consumed] in *. split; [exact Hl|].
  pose proof (attempts_used_bounds src (consumed w)). lia.
Qed.

(* ===================================================================== *)
(** ** More on [solicitarCincoNumeros] *)
(* ===================================================================== *)

(** X5. At every moment of a run of [solicitarCincoNumeros], from any world
    and on any source, what has been shown is an initial part of the five
    dialogs, the header and the five values, and at most five answers have
    been read: no answer, numeric or not, is asked for again. *)
Theorem solicitarCincoNumeros_never_more_than_five (src : source) (w : world) (fuel : nat) :
  (exists rest,
      trace w ++ solicitarCincoNumeros_trace src (consumed w)
      = trace (outcome_world (run fuel src solicitarCincoNumeros w)) ++ rest) /\
  consumed (outcome_world (run fuel src solicitarCincoNumeros w)) <= consumed w + 5.
Proof.
  pose proof (solicitarCincoNumeros_returns src w) as Hret.
  destruct (run_prefix_of_returns src _ _ _ _ Hret fuel) as [Hl Hc].
  cbn [trace consumed] in *. split; [exact Hl|lia].
Qed.

(* ===================================================================== *)
(** ** More on the script *)
(* ===================================================================== *)

(** X6. The script returns exactly when some answer parses to 3: the loop of
    [loopWhile] is the only place where it can stay forever. *)
Theorem script_terminates_iff_three (src : source) :
  terminates src script start <-> exists n, is_three (src n) = true.
Proof.
  split.
  - intros (r & w' & H). unfold script in H.
    apply returns_bind_inv in H. destruct H as ([] & w1 & Hlog & H).
    destruct (returns_det src _ _ _ _ _ _ Hlog (returns_console_log src _ start)) as [_ ->].
    apply returns_bind_inv in H. destruct H as ([] & w2 & [m Hm] & _).
    destruct (search_upto (fun j => is_three (src j)) m) as [(j & _ & Hj)|Hall].
    + now exists j.
    + exfalso. revert Hm. now apply loopWhile_stuck.
  - intros [n Hn].
    destruct (first_true (fun j => is_three (src j)) n Hn) as (k & _ & Hk & Hpre).
    exists tt. eexists. unfold script.
    eapply returns_bind; [apply returns_console_log|].
    eapply returns_bind; [apply (loopWhile_returns src k (World 0 _)); assumption|].
    eapply returns_bind; [apply returns_console_log|].
    eapply returns_bind; [apply validaSenha_returns|].
    eapply returns_bind; [apply returns_console_log|].
    eapply returns_bind; [apply exibirListaFixa_returns|].
    eapply returns_bind; [apply returns_console_log|].
    eapply returns_bind; [apply solicitarCincoNumeros_returns|].
    do 4 (eapply returns_bind; [apply returns_console_log|]).
    apply returns_console_log.
Qed.

(* ===================================================================== *)
(** ** [loopWhile] and the text of the answers *)
(* ===================================================================== *)

Lemma observe_loopWhile_body_stop (v : number) :
  Number.equal v (of_Z 3) = true ->
  observe (loopWhile_body v) = RetF (inr tt).
Proof. intros H. unfold loopWhile_body. now rewrite H. Qed.

Lemma observe_loopWhile_body_again (v : number) :
  Number.equal v (of_Z 3) = false ->
  observe (loopWhile_body v)
  = observe (console_log [VStr "Você digitou:"; VNum v] ;;
             a <- prompt "Digite outro número:" ;;
             Ret (inl (parseInt a)) : itree ioE (number + unit)).
Proof. intros H. unfold loopWhile_body. now rewrite H. Qed.

(** The first step of [loopWhile] opens the first dialog. *)
Lemma run_loopWhile_step (src : source) (m : nat) (w : world) :
  run (S m) src loopWhile w
  = run m src (ITree.iter loopWhile_body (parseInt (src (consumed w)));;
               console_log encerrando)
      (World (S (consumed w)) (trace w ++ [Prompted "Digite um número:"])).
Proof.
  unfold loopWhile. cbn [run]. rewrite observe_bind_cases.
  cbn [prompt ITree.trigger observe _observe handle consumed trace].
  apply run_observe. reflexivity.
Qed.

Section ParsedOnly.

Variables src1 src2 : source.
Hypothesis Hparse : forall i, parseInt (src1 i) = parseInt (src2 i).

Lemma loopWhile_iter_parsed (m : nat) :
  forall v w,
    run m src1 (ITree.iter loopWhile_body v ;; console_log encerrando) w
    = run m src2 (ITree.iter loopWhile_body v ;; console_log encerrando) w.
Proof.
  induction m as [m IH] using lt_wf_ind. intros v w.
  destruct m as [|m]; [reflexivity|].
  cbn [run]. rewrite !observe_bind_cases, !observe_iter, !observe_bind_cases.
  destruct (Number.equal v (of_Z 3)) eqn:Hv.
  - rewrite (observe_loopWhile_body_stop v Hv). cbn.
    destruct m as [|m]; reflexivity.
  - rewrite (observe_loopWhile_body_again v Hv). cbn.
    destruct m as [|m]; [reflexivity|]. cbn [run]. cbn.
    destruct m as [|m]; [reflexivity|]. cbn [run]. cbn.
    rewrite Hparse. apply IH. lia.
Qed.

End ParsedOnly.

(** X7. [loopWhile] sees the answers through [parseInt] only: two sources
    whose answers parse to the same numbers give the same run, step for
    step, whatever the text typed. *)
Theorem loopWhile_sees_parsed_values_only (src1 src2 : source) :
  (forall i, parseInt (src1 i) = parseInt (src2 i)) ->
  forall fuel w, run fuel src1 loopWhile w = run fuel src2 loopWhile w.
Proof.
  intros Hparse [|m] w; [reflexivity|].
  rewrite !run_loopWhile_step, Hparse.
  now apply loopWhile_iter_parsed.
Qed.

Lemma loopWhile_sees_parsed_values_only_witness :
  run 9 (fun _ => Some "  +16px") loopWhile start
  = run 9 (fun _ => Some "0x10") loopWhile start.
Proof.
  apply (loopWhile_sees_parsed_values_only (fun _ => Some "  +16px") (fun _ => Some "0x10")).
  intros i. reflexivity.
Defined.

(* ===================================================================== *)
(** ** More on the functions *)
(* ===================================================================== *)

Section MoreNumberFacts.

Local Open Scope Z_scope.

Lemma binary_round_aux_opp (s : bool) (m e : Z) (l : location) :
  binary_round_aux prec emax (negb s) m e l = SFopp (binary_round_aux prec emax s m e l).
Proof.
  unfold binary_round_aux.
  destruct (shr_fexp prec emax m e l) as [mrs' e'].
  destruct (shr_fexp prec emax _ e' loc_Exact) as [mrs'' e''].
  destruct (shr_m mrs'') as [|p|p]; try reflexivity.
  destruct (e'' <=? emax - prec); reflexivity.
Qed.

Lemma binary_normalize_opp (z e : Z) :
  z <> 0 ->
  binary_normalize prec emax (- z) e false = SFopp (binary_normalize prec emax z e false).
Proof.
  intros Hz. destruct z as [|p|p]; [congruence| |]; cbn [Z.opp binary_normalize];
    unfold binary_round; destruct (shl_align p e _) as [mz ez].
  - apply (binary_round_aux_opp false).
  - apply (binary_round_aux_opp true).
Qed.

Lemma binary_normalize_not_nan (z e : Z) :
  binary_normalize prec emax z e false <> S754_nan.
Proof.
  destruct z as [|p|p]; [discriminate| |]; cbn [binary_normalize];
    unfold binary_round; destruct (shl_align p e _) as [mz ez]; intros H.
  - pose proof (binary_round_aux_sign false mz ez) as G. now rewrite H in G.
  - pose proof (binary_round_aux_sign true mz ez) as G. now rewrite H in G.
Qed.

Lemma equal_refl (x : number) : x <> NaN -> Number.equal x x = true.
Proof.
  destruct x as [s|s| |s m e]; intros H; [reflexivity|now destruct s|now elim H|].
  unfold Number.equal, SFeqb, SFcompare.
  rewrite Z.compare_refl, Pos.compare_cont_refl. now destruct s.
Qed.

Lemma of_Z_finite_not_zero (z : Z) :
  z <> 0 -> Z.abs z < 2 ^ 53 -> of_Z z <> of_Z 0.
Proof.
  intros Hz Habs. destruct (binary_normalize_small z Hz Habs) as (M & E & HM & _).
  unfold of_Z. rewrite HM. discriminate.
Qed.

End MoreNumberFacts.

(** X8. The square is NaN for NaN only and is never below zero, whatever
    the number, the infinities and the zeros included; a number and its
    opposite have the same square. *)
Theorem calcularQuadrado_never_negative (numero : number) :
  (calcularQuadrado numero = NaN <-> numero = NaN) /\
  (numero <> NaN -> lessEq (of_Z 0) (calcularQuadrado numero) = true) /\
  lessThan (calcularQuadrado numero) (of_Z 0) = false /\
  calcularQuadrado (SFopp numero) = calcularQuadrado numero.
Proof.
  destruct numero as [s|s| |s m e]; cbn.
  - repeat split; try discriminate; reflexivity.
  - repeat split; try discriminate; reflexivity.
  - repeat split; try reflexivity. intros H. now elim H.
  - pose proof (binary_round_aux_sign false (m * m) (e + e)) as H.
    fold Number.prec Number.emax in H |- *.
    destruct (binary_round_aux prec emax false (Zpos (m * m)) (e + e) loc_Exact)
      as [s'|s'| |s' m' e']; try contradiction; subst s'.
    all: repeat split; try discriminate; try reflexivity.
Qed.

(** X9. A finite number or a zero minus itself is the positive zero; an
    infinity minus itself, like NaN minus NaN, is NaN. *)
Theorem Subtracao_self (a : number) :
  Subtracao a a =
  match a with
  | S754_nan | S754_infinity _ => NaN
  | S754_zero _ | S754_finite _ _ _ => pos_zero
  end.
Proof.
  destruct a as [[]|[]| |s m e]; try reflexivity.
  rewrite (sub_finite s s m m e e : Subtracao _ _ = _).
  replace (cond_Zopp s (Zpos m) * 2 ^ (e - Z.min e e)
           - cond_Zopp s (Zpos m) * 2 ^ (e - Z.min e e))%Z with 0%Z by lia.
  reflexivity.
Qed.

(** X10. Swapping the operands of [Subtracao] changes the sign of the result
    and nothing else: one difference is NaN exactly when the other is, and
    otherwise [b - a] equals the opposite of [a - b]. *)
Theorem Subtracao_swap (a b : number) :
  (Subtracao a b = NaN <-> Subtracao b a = NaN) /\
  (Subtracao a b <> NaN ->
   Number.equal (Subtracao b a) (SFopp (Subtracao a b)) = true).
Proof.
  destruct a as [sa|sa| |sa ma ea], b as [sb|sb| |sb mb eb].
  16: {
    rewrite (sub_finite sa sb ma mb ea eb : Subtracao _ _ = _).
    rewrite (sub_finite sb sa mb ma eb ea : Subtracao _ _ = _).
    rewrite (Z.min_comm eb ea).
    set (ez := Z.min ea eb).
    set (z := (cond_Zopp sa (Zpos ma) * 2 ^ (ea - ez)
               - cond_Zopp sb (Zpos mb) * 2 ^ (eb - ez))%Z).
    replace (cond_Zopp sb (Zpos mb) * 2 ^ (eb - ez)
             - cond_Zopp sa (Zpos ma) * 2 ^ (ea - ez))%Z with (- z)%Z
      by (unfold z; lia).
    unfold of_dyadic. split.
    - split; intros H; exfalso; revert H; apply binary_normalize_not_nan.
    - intros _. destruct (Z.eq_dec z 0) as [Hz|Hz].
      + rewrite Hz. reflexivity.
      + rewrite (binary_normalize_opp z ez Hz). apply equal_refl.
        pose proof (binary_normalize_not_nan z ez) as Hn.
        destruct (binary_normalize prec emax z ez false); cbn; unfold NaN; congruence. }
  all: try destruct sa; try destruct sb; unfold NaN; cbn;
    (split;
     [ split; intros H; first [reflexivity | discriminate H]
     | intros Hn;
       first [ now elim Hn
             | unfold Number.equal, SFeqb; cbn;
               rewrite ?Z.compare_refl, ?Pos.compare_cont_refl; reflexivity ] ]).
Qed.

(** X11. On integers below [2^52] in absolute value the difference is zero
    exactly when the two integers are equal. *)
Theorem Subtracao_zero_iff_equal (a b : Z) :
  (Z.abs a < 2 ^ 52)%Z -> (Z.abs b < 2 ^ 52)%Z ->
  (Subtracao (of_Z a) (of_Z b) = of_Z 0 <-> a = b).
Proof.
  intros Ha Hb.
  assert (H53 : (2 ^ 53 = 2 * 2 ^ 52)%Z) by reflexivity.
  unfold Subtracao. rewrite SFsub_of_Z by lia. split.
  - intros H. destruct (Z.eq_dec (a - b) 0) as [Hz|Hz]; [lia|].
    exfalso. revert H. apply of_Z_finite_not_zero; [exact Hz|lia].
  - intros ->. now rewrite Z.sub_diag.
Qed.

Lemma Subtracao_zero_iff_equal_witness :
  Subtracao (of_Z 41) (of_Z 41) = of_Z 0 <-> 41%Z = 41%Z.
Proof.
  apply (Subtracao_zero_iff_equal 41 41); reflexivity.
Defined.

(** X12. The two numeric functions compose exactly on integers: for integers
    below [2^52] in absolute value, the square of the difference is the
    number of the integer [(a - b) * (a - b)]. *)
Theorem calcularQuadrado_of_Subtracao (a b : Z) :
  (Z.abs a < 2 ^ 52)%Z -> (Z.abs b < 2 ^ 52)%Z ->
  calcularQuadrado (Subtracao (of_Z a) (of_Z b)) = of_Z ((a - b) * (a - b)).
Proof.
  intros Ha Hb.
  assert (H53 : (2 ^ 53 = 2 * 2 ^ 52)%Z) by reflexivity.
  unfold Subtracao, calcularQuadrado. rewrite SFsub_of_Z by lia.
  apply exponentiate_2_of_Z. lia.
Qed.

Lemma calcularQuadrado_of_Subtracao_witness :
  calcularQuadrado (Subtracao (of_Z 3) (of_Z 10)) = of_Z 49.
Proof.
  apply (calcularQuadrado_of_Subtracao 3 10); reflexivity.
Defined.

(** *** The greeting *)

Lemma length_append (s t : string) :
  String.length (s ++ t)%string = String.length s + String.length t.
Proof. induction s as [|c s IH]; cbn; [reflexivity|now rewrite IH]. Qed.

Lemma substring_0_append (s t : string) :
  substring 0 (String.length s) (s ++ t)%string = s.
Proof.
  induction s as [|c s IH]; cbn; [now destruct t|now rewrite IH].
Qed.

Lemma substring_skip (p s : string) (n : nat) :
  substring (String.length p) n (p ++ s)%string = substring 0 n s.
Proof. induction p as [|c p IH]; cbn; [reflexivity|exact IH]. Qed.

(** X13. The name can be read back from the greeting: it is the part of
    [String.length nome] bytes that starts after the six bytes of the
    opening, and the greeting is longer than the name by a constant. *)
Theorem saudacao_name_roundtrip (nome : string) :
  substring 6 (String.length nome) (saudacao nome) = nome /\
  String.length (saudacao nome) = String.length nome + String.length (saudacao "").
Proof.
  unfold saudacao. split.
  - change 6 with (String.length "Olá, ").
    now rewrite substring_skip, substring_0_append.
  - rewrite !length_append. cbn. lia.
Qed.

(** X14. Two names with the same greeting are the same name. *)
Theorem saudacao_injective (n1 n2 : string) :
  saudacao n1 = saudacao n2 -> n1 = n2.
Proof.
  intros H.
  destruct (saudacao_name_roundtrip n1) as [R1 L1].
  destruct (saudacao_name_roundtrip n2) as [R2 L2].
  assert (Hlen : String.length n1 = String.length n2).
  { rewrite H in L1. lia. }
  rewrite <- R1, <- R2, H, Hlen. reflexivity.
Qed.

Lemma saudacao_injective_witness : "Ana" = "Ana".
Proof.
  apply (saudacao_injective "Ana" "Ana"). reflexivity.
Defined.
